(** * RedPacket: a shallow embedding of the red-packet contract

    The contract (Solidity ^0.8.0) keeps a pool [totalAmount] of wei and a
    number [count] of shares; [grabRedPacket] hands one share to its caller,
    either an equal part or a pseudo-random one.  This file embeds the
    constructor and [grabRedPacket] statement by statement and proves the
    properties of the pool ledger.

    Modelling conventions
    - [uint256] values are integers of [Z]; arithmetic is the checked
      arithmetic of Solidity 0.8: an overflow or underflow raises
      [Panic 0x11], a division or modulus by zero raises [Panic 0x12].
    - The body of a function runs in a state-and-error monad whose failure
      carries the state reached when the failure was raised; the rollback
      of the EVM is applied by [call], at the boundary of the message call.
    - [mapping(address => uint256)] is a [gmap Z Z] read with default 0.
    - [keccak256] and the code installed at each address are parameters of
      the development. *)

From Stdlib Require Import ZArith List String Lia Bool.
From stdpp Require Import gmap.
Import ListNotations.

Local Open Scope Z_scope.

Module RedPacket.

(** ** Values *)

(** Addresses are 160-bit numbers. *)
Abbreviation address := Z (only parsing).

Definition uint256_max : Z := 2 ^ 256 - 1.

(** [uint256(bytes32)]: the digest read as a big-endian number.  A digest is
    32 bytes long, so the reduction is the identity on every real digest;
    it keeps the model total whatever hash function is supplied. *)
Definition uint256 (digest : Z) : Z := digest mod 2 ^ 256.

(** ** Errors *)

Inductive Error : Type :=
| Revert (reason : string)   (* a failed [require] *)
| Panic (code : Z)           (* 0x11 arithmetic overflow, 0x12 division by zero *)
| TransferFailed             (* [transfer] rethrows the failure of the callee *)
| OutOfGas.

Definition InvalidConfig : Error := Revert "Count must be > 0".
Definition PoolExhausted : Error := Revert "All red packets grabbed".
Definition PoolEmpty : Error := Revert "No money left".
Definition AlreadyClaimed : Error := Revert "Already grabbed".
Definition Overflow : Error := Panic 17.
Definition DivisionByZero : Error := Panic 18.

Inductive Result : Type :=
| Success (amount : Z)
| Failure (e : Error).

(** ** Effects and state *)

(** What a call does to the world, in program order. *)
Inductive Effect : Type :=
| SStore_isGrabbed (account : address) (v : Z)
| Send (to : address) (amount : Z)            (* the value transfer is started *)
| Reentered (caller : address) (r : Result)   (* the payee called back into the contract *)
| SStore_totalAmount (v : Z)
| SStore_count (v : Z)
| Grabbed (account : address) (amount : Z).   (* event Grabbed *)

Record State : Type := mkState {
  yideng : address;
  totalAmount : Z;
  count : Z;
  isEqual : bool;
  isGrabbed : gmap Z Z;
  balance : Z;             (* wei held by the contract account *)
  trace : list Effect      (* effects so far, oldest first *)
}.

(** [isGrabbed[a]]: an absent key reads 0. *)
Definition grabbed (s : State) (a : address) : Z :=
  default 0 (isGrabbed s !! a).

Definition set_isGrabbed (a : address) (v : Z) (s : State) : State :=
  mkState (yideng s) (totalAmount s) (count s) (isEqual s)
          (<[a := v]> (isGrabbed s)) (balance s) (trace s).

Definition set_totalAmount (v : Z) (s : State) : State :=
  mkState (yideng s) v (count s) (isEqual s) (isGrabbed s) (balance s) (trace s).

Definition set_count (v : Z) (s : State) : State :=
  mkState (yideng s) (totalAmount s) v (isEqual s) (isGrabbed s) (balance s) (trace s).

Definition set_balance (v : Z) (s : State) : State :=
  mkState (yideng s) (totalAmount s) (count s) (isEqual s) (isGrabbed s) v (trace s).

Definition record (eff : Effect) (s : State) : State :=
  mkState (yideng s) (totalAmount s) (count s) (isEqual s) (isGrabbed s)
          (balance s) (trace s ++ [eff]).

(** The transaction environment of a call. *)
Record Env : Type := mkEnv {
  msg_sender : address;
  block_timestamp : Z;
  block_prevrandao : Z
}.

Definition called_by (caller : address) (e : Env) : Env :=
  mkEnv caller (block_timestamp e) (block_prevrandao e).

(** ** The monad of function bodies *)

Inductive Outcome (A : Type) : Type :=
| Done (a : A) (s : State)
| Fail (e : Error) (s : State).   (* [s]: the state reached at the failure *)
Arguments Done {A} a s.
Arguments Fail {A} e s.

Definition M (A : Type) : Type := State -> Outcome A.

Definition ret {A} (a : A) : M A := fun s => Done a s.

Definition bind {A B} (m : M A) (k : A -> M B) : M B :=
  fun s => match m s with
           | Done a s' => k a s'
           | Fail e s' => Fail e s'
           end.

Definition throw {A} (e : Error) : M A := fun s => Fail e s.

Notation "x <- m ;; k" := (bind m (fun x => k))
  (at level 100, m at next level, right associativity).
Notation "m ;; k" := (bind m (fun _ => k))
  (at level 100, right associativity).

Definition sload {A} (field : State -> A) : M A := fun s => Done (field s) s.

Definition require (cond : bool) (reason : string) : M unit :=
  if cond then ret tt else throw (Revert reason).

(** Gas available to a call: a transaction has ample gas; the code run by
    [transfer] gets the 2300 gas stipend only, which pays for reading storage
    and for a failing [require], but under which a storage write or a value
    transfer runs out of gas. *)
Inductive Gas : Type := Ample | Stipend.

Definition sstore (g : Gas) (write : State -> State) (eff : Effect) : M unit :=
  fun s => match g with
           | Ample => Done tt (record eff (write s))
           | Stipend => Fail OutOfGas s
           end.

Definition emit (eff : Effect) : M unit := fun s => Done tt (record eff s).

(** Checked arithmetic on [uint256]. *)
Definition checked_add (a b : Z) : M Z :=
  if a + b <=? uint256_max then ret (a + b) else throw Overflow.

Definition checked_sub (a b : Z) : M Z :=
  if b <=? a then ret (a - b) else throw Overflow.

Definition checked_mul (a b : Z) : M Z :=
  if a * b <=? uint256_max then ret (a * b) else throw Overflow.

Definition checked_div (a b : Z) : M Z :=
  if b =? 0 then throw DivisionByZero else ret (a / b).

Definition checked_mod (a b : Z) : M Z :=
  if b =? 0 then throw DivisionByZero else ret (a mod b).

(** ** constructor *)

(** [constructor(uint256 _count, bool _isEqual) payable], called by [sender]
    with [value] wei; the contract account starts with that balance. *)
Definition constructor (sender : address) (value : Z) (_count : Z) (_isEqual : bool)
  : Error + State :=
  if _count >? 0
  then inr (mkState sender value _count _isEqual ∅ value [])
  else inl InvalidConfig.

(** Code run by an account that receives wei: it accepts, refuses, or calls
    [grabRedPacket] (as itself or through another account) and goes on
    according to the result. *)
Inductive Code : Type :=
| Stop
| Abort
| Reenter (caller : address) (k : Result -> Code).

(** ** A sample world *)

(** A stand-in for the hash, and accounts of three kinds: account 1 calls
    back into the contract when it is paid, as itself and then through
    account 3; account 4 refuses payments; the others accept. *)
Definition sample_keccak (words : list Z) : Z :=
  fold_right (fun w acc => w + 31 * acc) 7 words.

Definition sample_code (a : address) : Code :=
  if a =? 1 then Reenter 1 (fun _ => Reenter 3 (fun _ => Stop))
  else if a =? 4 then Abort
  else Stop.

Definition alice : Env := mkEnv 1 1700000000 12345.
Definition bob : Env := mkEnv 2 1700000012 67890.

(** The pools made by [constructor(2, false)] and [constructor(3, true)]
    with 100 wei, deployed by account 9. *)
Definition random_pool : State := mkState 9 100 2 false ∅ 100 [].
Definition equal_pool : State := mkState 9 100 3 true ∅ 100 [].

Section Contract.

(** [keccak256(abi.encode(w1, ..., wn))], applied to the encoded words. *)
Variable keccak256 : list Z -> Z.

Variable code_at : address -> Code.

(** ** grabRedPacket *)

(** The body of [grabRedPacket()], statement by statement.  [g] is the gas
    the call runs with and [transfer] the meaning of
    [payable(msg.sender).transfer]; both are fixed below.  After the write to
    [isGrabbed] the names [count], [totalAmount] and [isEqual] stand for the
    values read from storage, as in the source.  The Solidity function
    returns nothing; the model returns the local [amount], which is also the
    amount of the [Send] effect and of the [Grabbed] event.  The function is
    not payable: a call carrying wei is refused before the body runs and is
    not a call of this model. *)
Definition grabRedPacket_body (g : Gas) (transfer : address -> Z -> M unit) (e : Env)
  : M Z :=
  c <- sload count ;;
  require (c >? 0) "All red packets grabbed" ;;
  t <- sload totalAmount ;;
  require (t >? 0) "No money left" ;;
  f <- sload (fun s => grabbed s (msg_sender e)) ;;
  require (f =? 0) "Already grabbed" ;;
  sstore g (set_isGrabbed (msg_sender e) 1) (SStore_isGrabbed (msg_sender e) 1) ;;
  count <- sload count ;;
  totalAmount <- sload totalAmount ;;
  isEqual <- sload isEqual ;;
  amount <-
    (if count =? 1 then ret totalAmount
     else if isEqual then checked_div totalAmount count
     else
       avg <- checked_div totalAmount count ;;
       max <- checked_mul avg 2 ;;
       min <- checked_div avg 100 ;;
       range <- checked_sub max min ;;
       let rand := uint256 (keccak256 [block_timestamp e; block_prevrandao e;
                                       msg_sender e; totalAmount; count]) in
       r <- checked_mod rand range ;;
       amount <- checked_add r min ;;
       ret (if amount >? totalAmount then totalAmount else amount)) ;;
  transfer (msg_sender e) amount ;;
  t <- sload RedPacket.totalAmount ;;
  t' <- checked_sub t amount ;;
  sstore g (set_totalAmount t') (SStore_totalAmount t') ;;
  c <- sload RedPacket.count ;;
  c' <- checked_sub c 1 ;;
  sstore g (set_count c') (SStore_count c') ;;
  emit (Grabbed (msg_sender e) amount) ;;
  ret amount.

(** A call made with the stipend cannot send value. *)
Definition grabRedPacket_stipend (e : Env) : M Z :=
  grabRedPacket_body Stipend (fun _ _ => throw OutOfGas) e.

(** The message call seen from its caller: a failure rolls the state back. *)
Definition rollback {A} (m : M A) (s : State) : Outcome A :=
  match m s with
  | Done a s' => Done a s'
  | Fail err _ => Fail err s
  end.

(** Run the code of the payee at state [s]; [true] when it accepts.  Each
    call back into the contract runs with the stipend, is rolled back when it
    fails, and is recorded in the trace with its result. *)
Fixpoint run_code (c : Code) (e : Env) (s : State) : bool * State :=
  match c with
  | Stop => (true, s)
  | Abort => (false, s)
  | Reenter caller k =>
      match rollback (grabRedPacket_stipend (called_by caller e)) s with
      | Done a s' => run_code (k (Success a)) e (record (Reentered caller (Success a)) s')
      | Fail err s' =>
          run_code (k (Failure err)) e (record (Reentered caller (Failure err)) s')
      end
  end.

(** [payable(to).transfer(amount)]: fails when the balance is too small or
    the payee refuses; the payee runs after the value has left the account. *)
Definition transfer (e : Env) (to : address) (amount : Z) : M unit :=
  fun s =>
    if balance s <? amount then Fail TransferFailed s
    else
      let s1 := record (Send to amount) (set_balance (balance s - amount) s) in
      match run_code (code_at to) e s1 with
      | (true, s2) => Done tt s2
      | (false, s2) => Fail TransferFailed s2
      end.

Definition grabRedPacket (e : Env) : M Z :=
  grabRedPacket_body Ample (transfer e) e.

(** ** Transactions *)

(** The result of a transaction calling [grabRedPacket]. *)
Definition call (e : Env) (s : State) : State * Result :=
  match grabRedPacket e s with
  | Done amount s' => (s', Success amount)
  | Fail err _ => (s, Failure err)
  end.

(** What can happen to the contract account: a claim, or wei forced into
    the account from outside (the contract has no payable function). *)
Inductive Tx : Type :=
| Claim (e : Env)
| Forced (value : Z).

Definition exec (s : State) (tx : Tx) : State :=
  match tx with
  | Claim e => fst (call e s)
  | Forced value => if value >? 0 then set_balance (balance s + value) s else s
  end.

Definition run (s : State) (txs : list Tx) : State := fold_left exec txs s.

(** ** Observations on a state *)

(** The first guard of [grabRedPacket] that rejects a call by [a], if any. *)
Definition guard (s : State) (a : address) : option Error :=
  if negb (count s >? 0) then Some PoolExhausted
  else if negb (totalAmount s >? 0) then Some PoolEmpty
  else if negb (grabbed s a =? 0) then Some AlreadyClaimed
  else None.

(** The identities marked as having claimed. *)
Definition claimed (s : State) : gset Z :=
  dom (filter (fun kv : Z * Z => kv.2 <> 0) (isGrabbed s)).

(** [s] with [l] appended to its trace. *)
Definition extend (l : list Effect) (s : State) : State :=
  mkState (yideng s) (totalAmount s) (count s) (isEqual s) (isGrabbed s)
          (balance s) (trace s ++ l).

(** The amounts sent to [a], oldest first. *)
Fixpoint sent_to (a : address) (l : list Effect) : list Z :=
  match l with
  | [] => []
  | Send to amount :: l' =>
      if to =? a then amount :: sent_to a l' else sent_to a l'
  | _ :: l' => sent_to a l'
  end.

(** All the amounts sent, oldest first. *)
Fixpoint payouts (l : list Effect) : list Z :=
  match l with
  | [] => []
  | Send _ amount :: l' => amount :: payouts l'
  | _ :: l' => payouts l'
  end.

(** The number of writes marking [a]. *)
Fixpoint marks (a : address) (l : list Effect) : nat :=
  match l with
  | [] => O
  | SStore_isGrabbed account _ :: l' =>
      if account =? a then S (marks a l') else marks a l'
  | _ :: l' => marks a l'
  end.

Definition sum (l : list Z) : Z := fold_right Z.add 0 l.

(** The storage holds [uint256] values and the account holds the pool. *)
Definition wf (s : State) : Prop :=
  0 <= totalAmount s <= uint256_max /\
  0 <= count s <= uint256_max /\
  totalAmount s <= balance s.

(** The callback of a payee, as the trace records it. *)
Definition probe (s : State) (eff : Effect) : Prop :=
  exists caller,
    eff = Reentered caller
            (Failure (match guard s caller with Some err => err | None => OutOfGas end)).

(** The payee at [a] takes the wei it is sent, whatever it observes. *)
Definition accepts (e : Env) (a : address) : Prop :=
  forall s, fst (run_code (code_at a) e s) = true.

(** A Random pool that holds fewer wei than shares, with two shares or more. *)
Definition starved (s : State) : Prop :=
  isEqual s = false /\ 2 <= count s /\ totalAmount s < count s.

(** A pool whose every share can be computed: Equal mode, or at least one
    wei per share. *)
Definition funded (s : State) : Prop :=
  isEqual s = true \/ count s <= totalAmount s.

(** The ledger of a pool created with [n0] shares and [v0] wei. *)
Definition ledger (n0 v0 : Z) (s : State) : Prop :=
  Z.of_nat (size (claimed s)) = n0 - count s /\
  Z.of_nat (length (payouts (trace s))) = n0 - count s /\
  sum (payouts (trace s)) + totalAmount s = v0 /\
  (count s = 0 -> totalAmount s = 0) /\
  (0 < v0 -> 0 < count s -> 0 < totalAmount s) /\
  (forall a, marks a (trace s) = length (sent_to a (trace s))) /\
  (forall a, marks a (trace s) = if grabbed s a =? 0 then O else 1%nat).

(** The [Grabbed] events of a trace, oldest first: the log of the contract. *)
Fixpoint events (l : list Effect) : list (address * Z) :=
  match l with
  | [] => []
  | Grabbed account amount :: l' => (account, amount) :: events l'
  | _ :: l' => events l'
  end.

(** The transfers of a trace, oldest first, with their payees. *)
Fixpoint sends (l : list Effect) : list (address * Z) :=
  match l with
  | [] => []
  | Send to amount :: l' => (to, amount) :: sends l'
  | _ :: l' => sends l'
  end.

(** The wei forced into the account by a list of transactions. *)
Fixpoint forced_total (txs : list Tx) : Z :=
  match txs with
  | [] => 0
  | Forced value :: txs' => (if value >? 0 then value else 0) + forced_total txs'
  | Claim _ :: txs' => forced_total txs'
  end.

(** The state in which the payee of a call by [e] paying [amount] runs. *)
Definition paying (e : Env) (amount : Z) (s : State) : State :=
  record (Send (msg_sender e) amount)
    (set_balance (balance s - amount)
       (record (SStore_isGrabbed (msg_sender e) 1)
          (set_isGrabbed (msg_sender e) 1 s))).

(** Pool, shares and payouts are never negative. *)
Definition nonneg (s : State) : Prop :=
  0 <= totalAmount s /\ 0 <= count s /\ Forall (fun p => 0 <= p) (payouts (trace s)).

(** The invariant of Equal mode for the quotient [q] of funding by shares. *)
Definition even_split (q : Z) (s : State) : Prop :=
  isEqual s = true /\
  q * count s <= totalAmount s <= (q + 1) * count s /\
  Forall (fun p => p = q \/ p = q + 1) (payouts (trace s)).

(** The log agrees with the transfers and with the flags. *)
Definition logged (s : State) : Prop :=
  events (trace s) = sends (trace s) /\
  NoDup (map fst (events (trace s))) /\
  (forall a, grabbed s a = 0 \/ grabbed s a = 1) /\
  (forall a, grabbed s a = 1 <-> a ∈ map fst (events (trace s))).

(** ** The calls made with the stipend *)

Lemma stipend_outcome (e : Env) (s : State) :
  rollback (grabRedPacket_stipend e) s =
  Fail (match guard s (msg_sender e) with Some err => err | None => OutOfGas end) s.
Proof.
  unfold rollback, grabRedPacket_stipend, grabRedPacket_body, guard, bind, sload,
    require, sstore, ret, throw.
  destruct (count s >? 0); simpl; [|reflexivity].
  destruct (totalAmount s >? 0); simpl; [|reflexivity].
  destruct (grabbed s (msg_sender e) =? 0); reflexivity.
Qed.

Lemma extend_extend (l1 l2 : list Effect) (s : State) :
  extend l2 (extend l1 s) = extend (l1 ++ l2) s.
Proof. unfold extend; simpl. now rewrite app_assoc. Qed.

(** The code of a payee only adds rejected callbacks to the trace. *)
Lemma run_code_probes (c : Code) (e : Env) (s : State) (b : bool) (s2 : State) :
  run_code c e s = (b, s2) ->
  exists l, s2 = extend l s /\ Forall (probe s) l.
Proof.
  revert s. induction c as [| |caller k IH]; intros s Hrun; simpl in Hrun.
  - inversion Hrun; subst. exists []. split; [|constructor].
    unfold extend. rewrite app_nil_r. now destruct s2.
  - inversion Hrun; subst. exists []. split; [|constructor].
    unfold extend. rewrite app_nil_r. now destruct s2.
  - rewrite stipend_outcome in Hrun.
    apply IH in Hrun. destruct Hrun as (l & -> & Hl).
    exists (Reentered caller
              (Failure (match guard s caller with Some err => err | None => OutOfGas end))
            :: l).
    split.
    + change (record ?x s) with (extend [x] s). now rewrite extend_extend.
    + constructor; [now exists caller|].
      eapply Forall_impl; [exact Hl|]. intros eff [c' ->]. now exists c'.
Qed.

(** ** What a call to [grabRedPacket] does *)

Ltac unfold_body :=
  unfold grabRedPacket, grabRedPacket_body, transfer, bind, sload, require, sstore,
    emit, ret, throw, checked_add, checked_sub, checked_mul, checked_div, checked_mod.

Ltac split_if H :=
  match type of H with
  | context [if ?b then _ else _] =>
      destruct b eqn:?; simpl in H; try discriminate H
  end.

Lemma guard_None (s : State) (a : address) :
  guard s a = None <-> count s > 0 /\ totalAmount s > 0 /\ grabbed s a = 0.
Proof.
  unfold guard.
  destruct (count s >? 0) eqn:Hc, (totalAmount s >? 0) eqn:Ht,
    (grabbed s a =? 0) eqn:Hg; simpl; split; intros H; try discriminate H;
    try reflexivity; lia.
Qed.

Lemma grab_done (e : Env) (s : State) (p : Z) (s' : State) :
  grabRedPacket e s = Done p s' ->
  guard s (msg_sender e) = None /\
  p <= balance s /\
  (count s = 1 -> p = totalAmount s) /\
  (count s <> 1 -> isEqual s = true -> p = totalAmount s / count s) /\
  (count s <> 1 -> isEqual s = false ->
     let avg := totalAmount s / count s in
     let max := avg * 2 in
     let min := avg / 100 in
     let range := max - min in
     let rand := uint256 (keccak256 [block_timestamp e; block_prevrandao e;
                                     msg_sender e; totalAmount s; count s]) in
     max <= uint256_max /\ min <= max /\ range <> 0 /\
     rand mod range + min <= uint256_max /\
     p = if rand mod range + min >? totalAmount s then totalAmount s
         else rand mod range + min) /\
  p <= totalAmount s /\
  exists l,
    Forall (probe (set_isGrabbed (msg_sender e) 1 s)) l /\
    s' = mkState (yideng s) (totalAmount s - p) (count s - 1) (isEqual s)
           (<[msg_sender e := 1]> (isGrabbed s)) (balance s - p)
           (trace s ++ [SStore_isGrabbed (msg_sender e) 1; Send (msg_sender e) p]
              ++ l ++ [SStore_totalAmount (totalAmount s - p);
                       SStore_count (count s - 1); Grabbed (msg_sender e) p]).
Proof.
  intros H. revert H. unfold_body. simpl.
  intros H.
  repeat split_if H.
  all: destruct (run_code _ _ _) as [b s2] eqn:Hrun; repeat split_if H.
  all: apply run_code_probes in Hrun; destruct Hrun as (l & -> & Hl).
  all: simpl in *; injection H as <- <-.
  all: rewrite ?Z.gtb_lt, ?Z.eqb_eq, ?Z.eqb_neq, ?Z.leb_le, ?Z.ltb_ge, ?Z.gtb_ltb,
         ?Z.ltb_lt in *.
  all: split; [apply guard_None; lia|].
  all: split; [lia|].
  all: split; [intros; try reflexivity; try lia|].
  all: split; [intros; try reflexivity; try congruence|].
  all: split; [intros; try lia; try discriminate|].
  all: try (split; [lia|]).
  all: exists l; split; [exact Hl|]; unfold record, extend; simpl.
  all: f_equal; first [assumption | rewrite <- !app_assoc; reflexivity].
Qed.

Ltac to_Z :=
  rewrite ?Z.gtb_ltb, ?Z.ltb_lt, ?Z.ltb_ge, ?Z.eqb_eq, ?Z.eqb_neq, ?Z.leb_le,
    ?Z.leb_gt, ?negb_true_iff, ?negb_false_iff in *.

(** A call that a guard rejects fails at that guard, before any write. *)
Lemma grab_rejected (e : Env) (s : State) (err : Error) :
  guard s (msg_sender e) = Some err -> grabRedPacket e s = Fail err s.
Proof.
  unfold guard. unfold_body.
  destruct (count s >? 0); simpl; [|now intros [= <-]].
  destruct (totalAmount s >? 0); simpl; [|now intros [= <-]].
  destruct (grabbed s (msg_sender e) =? 0); simpl; [discriminate|now intros [= <-]].
Qed.

(** The failures of a call that passes the guards. *)
Lemma grab_fail (e : Env) (s : State) (err : Error) (sf : State) :
  grabRedPacket e s = Fail err sf ->
  (guard s (msg_sender e) = Some err /\ sf = s) \/
  (guard s (msg_sender e) = None /\
   (err = DivisionByZero \/ err = Overflow \/ err = TransferFailed)).
Proof.
  destruct (guard s (msg_sender e)) as [err'|] eqn:Hg.
  - rewrite (grab_rejected _ _ _ Hg). intros [= <- <-]. now left.
  - intros H. right. split; [reflexivity|]. revert H. unfold_body. simpl. intros H.
    repeat split_if H.
    all: try match type of H with
             | context [run_code ?c ?e' ?s1] =>
                 destruct (run_code c e' s1) as [b s2] eqn:Hrun; repeat split_if H
             end.
    all: try (injection H as <- <-; auto; fail).
    all: exfalso; apply guard_None in Hg; to_Z; lia.
Qed.

Lemma div_small (a b : Z) : 0 <= a < b -> a / b = 0.
Proof. intros H. now apply Z.div_small. Qed.

(** In Random mode a pool holding fewer wei than shares has [range = 0]:
    the call panics at [rand % range]. *)
Lemma grab_range_zero (e : Env) (s : State) :
  guard s (msg_sender e) = None ->
  isEqual s = false -> count s <> 1 -> totalAmount s < count s ->
  grabRedPacket e s =
  Fail DivisionByZero
       (record (SStore_isGrabbed (msg_sender e) 1) (set_isGrabbed (msg_sender e) 1 s)).
Proof.
  intros Hg Heq Hc Hlt. apply guard_None in Hg. destruct Hg as (Hc0 & Ht0 & Hg).
  assert (Havg : totalAmount s / count s = 0) by (apply div_small; lia).
  assert (E1 : (count s >? 0) = true) by (to_Z; lia).
  assert (E2 : (totalAmount s >? 0) = true) by (to_Z; lia).
  assert (E3 : (grabbed s (msg_sender e) =? 0) = true) by (to_Z; lia).
  assert (E4 : (count s =? 1) = false) by (to_Z; lia).
  assert (E5 : (count s =? 0) = false) by (to_Z; lia).
  unfold_body. simpl. rewrite E1. simpl. rewrite E2. simpl. rewrite E3. simpl.
  rewrite E4, Heq, E5. simpl. rewrite Havg. reflexivity.
Qed.

(** ** Arithmetic of the share calculator *)

Lemma avg_bounds (T N : Z) :
  2 <= N -> 0 <= T -> 0 <= T / N /\ T / N * 2 <= T.
Proof.
  intros HN HT. split; [apply Z.div_pos; lia|].
  assert (T / N <= T / 2) by (apply Z.div_le_compat_l; lia).
  assert (2 * (T / 2) <= T) by (apply Z.mul_div_le; lia).
  lia.
Qed.

Lemma avg_pos (T N : Z) : 0 < N -> N <= T -> 1 <= T / N.
Proof. intros HN HT. apply Z.div_le_lower_bound; lia. Qed.

Lemma min_bounds (avg : Z) : 0 <= avg -> 0 <= avg / 100 <= avg.
Proof.
  intros H. split; [apply Z.div_pos; lia|].
  apply Z.div_le_upper_bound; lia.
Qed.

Lemma uint256_bounds (digest : Z) : 0 <= uint256 digest <= uint256_max.
Proof.
  unfold uint256, uint256_max.
  assert (0 <= digest mod 2 ^ 256 < 2 ^ 256) by (apply Z.mod_pos_bound; lia).
  lia.
Qed.

(** The unclamped random payout lies in [[min, max - 1]], below the pool. *)
Lemma random_raw_bounds (T N rand : Z) :
  2 <= N -> 0 <= T ->
  let avg := T / N in
  let max := avg * 2 in
  let min := avg / 100 in
  let range := max - min in
  range <> 0 ->
  min <= rand mod range + min <= max - 1 /\ rand mod range + min < T.
Proof.
  intros HN HT avg max min range Hr.
  destruct (avg_bounds T N HN HT) as [Ha0 Ha2]. fold avg in Ha0, Ha2.
  destruct (min_bounds avg Ha0) as [Hm0 Hm1]. fold min in Hm0, Hm1.
  assert (Hpos : 0 < range) by (unfold range, max in *; lia).
  assert (0 <= rand mod range < range) by (apply Z.mod_pos_bound; lia).
  unfold range, max in *. lia.
Qed.

(** A call that passes the guards succeeds when the payee accepts, except in
    Random mode on a pool holding fewer wei than shares. *)
Lemma grab_succeeds (e : Env) (s : State) :
  wf s -> guard s (msg_sender e) = None -> accepts e (msg_sender e) ->
  count s = 1 \/ isEqual s = true \/ count s <= totalAmount s ->
  exists p s', grabRedPacket e s = Done p s'.
Proof.
  intros (HT & HN & HB) Hg Hacc Hcase.
  apply guard_None in Hg. destruct Hg as (Hc0 & Ht0 & Hg).
  assert (E1 : (count s >? 0) = true) by (to_Z; lia).
  assert (E2 : (totalAmount s >? 0) = true) by (to_Z; lia).
  assert (E3 : (grabbed s (msg_sender e) =? 0) = true) by (to_Z; lia).
  assert (Havg : 2 <= count s -> 0 <= totalAmount s / count s /\
                 totalAmount s / count s * 2 <= totalAmount s)
    by (intros; apply avg_bounds; lia).
  assert (Hmin : 2 <= count s -> 0 <= totalAmount s / count s / 100 <=
                 totalAmount s / count s)
    by (intros H; apply min_bounds, Havg, H).
  assert (Hpos : count s <= totalAmount s -> 1 <= totalAmount s / count s)
    by (intros; apply avg_pos; lia).
  pose proof (fun H1 H2 =>
    random_raw_bounds (totalAmount s) (count s)
      (uint256 (keccak256 [block_timestamp e; block_prevrandao e; msg_sender e;
                           totalAmount s; count s])) H1 H2) as Hraw.
  cbv zeta in Hraw.
  unfold_body. simpl. rewrite E1. simpl. rewrite E2. simpl. rewrite E3. simpl.
  repeat match goal with
         | |- context [if ?b then _ else _] => destruct b eqn:?; simpl
         | |- context [run_code ?c ?e' ?s1] =>
             let Hrun := fresh "Hrun" in
             pose proof (Hacc s1) as Hrun;
             destruct (run_code c e' s1) as [b s2] eqn:?;
             simpl in Hrun; subst b;
             match goal with
             | H : run_code _ _ _ = _ |- _ =>
                 apply run_code_probes in H; destruct H as (l & -> & _)
             end; simpl
         end.
  all: try (now eauto).
  all: exfalso.
  all: repeat match goal with
              | H : context [if ?b then _ else _] |- _ => destruct b eqn:?
              end.
  all: to_Z; lia.
Qed.

(** ** Traces *)

Lemma payouts_app (l1 l2 : list Effect) :
  payouts (l1 ++ l2) = payouts l1 ++ payouts l2.
Proof.
  induction l1 as [|eff l1 IH]; simpl; [reflexivity|].
  destruct eff; simpl; now rewrite IH.
Qed.

Lemma sent_to_app (a : address) (l1 l2 : list Effect) :
  sent_to a (l1 ++ l2) = sent_to a l1 ++ sent_to a l2.
Proof.
  induction l1 as [|eff l1 IH]; simpl; [reflexivity|].
  destruct eff; simpl; try (destruct (to =? a)); simpl; now rewrite IH.
Qed.

Lemma marks_app (a : address) (l1 l2 : list Effect) :
  marks a (l1 ++ l2) = (marks a l1 + marks a l2)%nat.
Proof.
  induction l1 as [|eff l1 IH]; simpl; [reflexivity|].
  destruct eff; simpl; try (destruct (account =? a)); simpl; now rewrite IH.
Qed.

Lemma sum_app (l1 l2 : list Z) : sum (l1 ++ l2) = sum l1 + sum l2.
Proof. unfold sum. induction l1 as [|x l1 IH]; simpl; lia. Qed.

(** Callbacks send nothing and mark nobody. *)
Lemma probes_silent (s : State) (l : list Effect) :
  Forall (probe s) l ->
  payouts l = [] /\ forall a, sent_to a l = [] /\ marks a l = O.
Proof.
  induction 1 as [|eff l [caller ->] _ [IH1 IH2]]; simpl; [now split|].
  split; [exact IH1|exact IH2].
Qed.

(** The effects of a successful call, by kind. *)
Lemma grab_trace (e : Env) (s : State) (p : Z) (s' : State) :
  grabRedPacket e s = Done p s' ->
  payouts (trace s') = payouts (trace s) ++ [p] /\
  forall a,
    sent_to a (trace s') =
      sent_to a (trace s) ++ (if msg_sender e =? a then [p] else []) /\
    marks a (trace s') =
      (marks a (trace s) + if (msg_sender e =? a)%Z then 1 else 0)%nat.
Proof.
  intros H. apply grab_done in H.
  destruct H as (_ & _ & _ & _ & _ & _ & l & Hl & ->). simpl.
  destruct (probes_silent _ _ Hl) as [Hp Hs].
  split.
  - rewrite payouts_app. simpl. rewrite payouts_app, Hp. reflexivity.
  - intros a. destruct (Hs a) as [Hs1 Hs2].
    rewrite sent_to_app, marks_app. simpl.
    rewrite sent_to_app, marks_app, Hs1, Hs2. simpl.
    destruct (msg_sender e =? a); simpl; split; reflexivity || lia.
Qed.

(** The log and the transfers of a trace. *)
Lemma events_app (l1 l2 : list Effect) : events (l1 ++ l2) = events l1 ++ events l2.
Proof.
  induction l1 as [|eff l1 IH]; simpl; [reflexivity|].
  destruct eff; simpl; now rewrite IH.
Qed.

Lemma sends_app (l1 l2 : list Effect) : sends (l1 ++ l2) = sends l1 ++ sends l2.
Proof.
  induction l1 as [|eff l1 IH]; simpl; [reflexivity|].
  destruct eff; simpl; now rewrite IH.
Qed.

Lemma probes_unlogged (s : State) (l : list Effect) :
  Forall (probe s) l -> events l = [] /\ sends l = [].
Proof.
  induction 1 as [|eff l [caller ->] _ [IH1 IH2]]; simpl; now split.
Qed.

(** A successful call appends one transfer and one event, for the same
    account and amount. *)
Lemma grab_log (e : Env) (s : State) (p : Z) (s' : State) :
  grabRedPacket e s = Done p s' ->
  events (trace s') = events (trace s) ++ [(msg_sender e, p)] /\
  sends (trace s') = sends (trace s) ++ [(msg_sender e, p)].
Proof.
  intros H. apply grab_done in H.
  destruct H as (_ & _ & _ & _ & _ & _ & l & Hl & ->). simpl.
  destruct (probes_unlogged _ _ Hl) as [He Hs].
  rewrite events_app, sends_app. simpl. rewrite events_app, sends_app, He, Hs.
  now split.
Qed.

(** ** The claimed set *)

Lemma claimed_spec (s : State) (a : address) :
  a ∈ claimed s <-> grabbed s a <> 0.
Proof.
  unfold claimed, grabbed. rewrite elem_of_dom. split.
  - intros [v Hv]. apply map_lookup_filter_Some in Hv. destruct Hv as [Hv Hne].
    rewrite Hv. exact Hne.
  - intros Hne. destruct (isGrabbed s !! a) as [v|] eqn:Hv; simpl in Hne; [|lia].
    exists v. apply map_lookup_filter_Some. split; [exact Hv|exact Hne].
Qed.

Lemma grabbed_set (s : State) (a b : address) (v : Z) :
  grabbed (set_isGrabbed a v s) b = if a =? b then v else grabbed s b.
Proof.
  unfold grabbed, set_isGrabbed. simpl.
  destruct (a =? b) eqn:E; to_Z.
  - subst. now rewrite lookup_insert_eq.
  - now rewrite lookup_insert_ne.
Qed.

Lemma claimed_mark (s : State) (a : address) :
  claimed (set_isGrabbed a 1 s) = {[a]} ∪ claimed s.
Proof.
  apply set_eq. intros b. rewrite elem_of_union, elem_of_singleton, !claimed_spec.
  rewrite grabbed_set. destruct (a =? b) eqn:E; to_Z.
  - subst. split; [now left|lia].
  - split; [now right|]. intros [->|H]; [lia|exact H].
Qed.

Lemma claimed_size_mark (s : State) (a : address) :
  grabbed s a = 0 ->
  size (claimed (set_isGrabbed a 1 s)) = S (size (claimed s)).
Proof.
  intros Hg. rewrite claimed_mark, size_union, size_singleton; [reflexivity|].
  apply disjoint_singleton_l. rewrite claimed_spec. lia.
Qed.

(** ** The payout of a successful call *)

Lemma grab_payout (e : Env) (s : State) (p : Z) (s' : State) :
  grabRedPacket e s = Done p s' ->
  0 <= p <= totalAmount s /\
  (count s = 1 -> p = totalAmount s) /\
  (2 <= count s -> p < totalAmount s) /\
  (2 <= count s -> isEqual s = true -> p = totalAmount s / count s) /\
  (2 <= count s -> isEqual s = false ->
     let avg := totalAmount s / count s in
     let max := avg * 2 in
     let min := avg / 100 in
     let range := max - min in
     let rand := uint256 (keccak256 [block_timestamp e; block_prevrandao e;
                                     msg_sender e; totalAmount s; count s]) in
     range <> 0 /\ (rand mod range + min >? totalAmount s) = false /\
     p = rand mod range + min /\ min <= p <= max - 1).
Proof.
  intros H. apply grab_done in H.
  destruct H as (Hg & _ & H1 & Heq & Hrnd & Hle & _).
  apply guard_None in Hg. destruct Hg as (Hc & Ht & _).
  assert (Hraw : 2 <= count s -> isEqual s = false ->
     let avg := totalAmount s / count s in
     let max := avg * 2 in
     let min := avg / 100 in
     let range := max - min in
     let rand := uint256 (keccak256 [block_timestamp e; block_prevrandao e;
                                     msg_sender e; totalAmount s; count s]) in
     range <> 0 /\ (rand mod range + min >? totalAmount s) = false /\
     p = rand mod range + min /\ min <= p <= max - 1).
  { intros H2 Hf. cbv zeta.
    destruct (Hrnd ltac:(lia) Hf) as (_ & _ & Hr & _ & Hp).
    destruct (random_raw_bounds (totalAmount s) (count s)
                (uint256 (keccak256 [block_timestamp e; block_prevrandao e;
                                     msg_sender e; totalAmount s; count s]))
                H2 ltac:(lia) Hr) as [Hb Hlt].
    cbv zeta in Hb, Hlt.
    assert (Hc' : (uint256 (keccak256 [block_timestamp e; block_prevrandao e;
                                       msg_sender e; totalAmount s; count s])
                   mod (totalAmount s / count s * 2 - totalAmount s / count s / 100)
                   + totalAmount s / count s / 100 >? totalAmount s) = false)
      by (to_Z; lia).
    rewrite Hc' in Hp. subst p. now repeat split. }
  assert (Hnn : 0 <= p).
  { destruct (Z.eq_dec (count s) 1) as [E|E]; [rewrite (H1 E); lia|].
    destruct (isEqual s) eqn:Hm.
    - rewrite (Heq E eq_refl). apply Z.div_pos; lia.
    - destruct (Hraw ltac:(lia) eq_refl) as (_ & _ & _ & Hb). cbv zeta in Hb.
      pose proof (avg_bounds (totalAmount s) (count s) ltac:(lia) ltac:(lia)) as [Ha _].
      pose proof (min_bounds _ Ha). lia. }
  split; [lia|]. split; [exact H1|]. split; [|split].
  - intros H2. destruct (isEqual s) eqn:Hm.
    + rewrite (Heq ltac:(lia) eq_refl).
      pose proof (avg_bounds (totalAmount s) (count s) H2 ltac:(lia)). lia.
    + destruct (Hraw H2 eq_refl) as (_ & _ & _ & Hb). cbv zeta in Hb.
      pose proof (avg_bounds (totalAmount s) (count s) H2 ltac:(lia)). lia.
  - intros H2 Hm. apply Heq; [lia|exact Hm].
  - exact Hraw.
Qed.

(** ** Runs *)

Lemma exec_cases (s : State) (tx : Tx) :
  exec s tx = s \/
  (exists v, tx = Forced v /\ 0 < v /\ exec s tx = set_balance (balance s + v) s) \/
  (exists e p, tx = Claim e /\ grabRedPacket e s = Done p (exec s tx)).
Proof.
  destruct tx as [e|v]; simpl.
  - unfold call. destruct (grabRedPacket e s) as [p s'|err sf] eqn:H; simpl.
    + right. right. now exists e, p.
    + now left.
  - destruct (v >? 0) eqn:E; [|now left].
    right. left. exists v. to_Z. now repeat split.
Qed.

Lemma run_invariant (P : State -> Prop) :
  (forall s tx, P s -> P (exec s tx)) ->
  forall txs s, P s -> P (run s txs).
Proof.
  intros Hstep txs. induction txs as [|tx txs IH]; intros s Hs; simpl; [exact Hs|].
  apply IH, Hstep, Hs.
Qed.

Lemma ledger_init (d v n : Z) (eq : bool) (s0 : State) :
  constructor d v n eq = inr s0 -> ledger n v s0.
Proof.
  unfold constructor. destruct (n >? 0) eqn:E; [|discriminate].
  intros [= <-]. to_Z. unfold ledger, claimed, grabbed; simpl.
  rewrite map_filter_empty, dom_empty_L, size_empty.
  repeat split; lia.
Qed.

Lemma grab_fields (e : Env) (s : State) (p : Z) (s' : State) :
  grabRedPacket e s = Done p s' ->
  totalAmount s' = totalAmount s - p /\
  count s' = count s - 1 /\
  isEqual s' = isEqual s /\
  yideng s' = yideng s /\
  balance s' = balance s - p /\
  claimed s' = claimed (set_isGrabbed (msg_sender e) 1 s) /\
  forall a, grabbed s' a = if msg_sender e =? a then 1 else grabbed s a.
Proof.
  intros H. apply grab_done in H.
  destruct H as (_ & _ & _ & _ & _ & _ & l & _ & ->). simpl.
  repeat split. intros a. apply (grabbed_set s).
Qed.

Lemma ledger_step (n0 v0 : Z) (s : State) (tx : Tx) :
  ledger n0 v0 s -> ledger n0 v0 (exec s tx).
Proof.
  intros L. destruct (exec_cases s tx) as [-> | [(v & _ & _ & ->) | (e & p & _ & H)]];
    [exact L|exact L|].
  destruct L as (L1 & L2 & L3 & L4 & L5 & L6 & L7).
  destruct (grab_payout _ _ _ _ H) as (Hp & Hp1 & Hp2 & _).
  destruct (grab_trace _ _ _ _ H) as (Tp & Ts).
  destruct (grab_fields _ _ _ _ H) as (Ft & Fc & _ & _ & _ & Fcl & Fg).
  pose proof (grab_done _ _ _ _ H) as (Hg & _).
  apply guard_None in Hg. destruct Hg as (Hc & Ht & Hg).
  unfold ledger. rewrite Tp, Ft, Fc, Fcl, claimed_size_mark by exact Hg.
  rewrite length_app, sum_app. simpl.
  repeat split; try lia.
  - intros a. destruct (Ts a) as [-> ->]. rewrite length_app, L6.
    destruct (msg_sender e =? a); reflexivity.
  - intros a. destruct (Ts a) as [_ ->]. rewrite L7, Fg.
    destruct (msg_sender e =? a) eqn:E; to_Z; simpl.
    + subst a. rewrite Hg. reflexivity.
    + destruct (grabbed s a =? 0); simpl; lia.
Qed.

Lemma ledger_run (d v n : Z) (eq : bool) (s0 : State) (txs : list Tx) :
  constructor d v n eq = inr s0 -> ledger n v (run s0 txs).
Proof.
  intros H. apply run_invariant; [apply ledger_step|]. eapply ledger_init, H.
Qed.

(** ** Marks, rejections and starved pools *)

(** Once the caller is marked, its own callbacks meet the third guard. *)
Lemma guard_marked (s : State) (a : address) :
  guard s a = None -> guard (set_isGrabbed a 1 s) a = Some AlreadyClaimed.
Proof.
  intros Hg. apply guard_None in Hg. destruct Hg as (Hc & Ht & _).
  unfold guard. rewrite grabbed_set, Z.eqb_refl.
  change (count (set_isGrabbed a 1 s)) with (count s).
  change (totalAmount (set_isGrabbed a 1 s)) with (totalAmount s).
  assert (E1 : (count s >? 0) = true) by (to_Z; lia).
  assert (E2 : (totalAmount s >? 0) = true) by (to_Z; lia).
  now rewrite E1, E2.
Qed.

Lemma probe_self (s : State) (a : address) (l : list Effect) (r : Result) :
  guard s a = None ->
  Forall (probe (set_isGrabbed a 1 s)) l ->
  In (Reentered a r) l -> r = Failure AlreadyClaimed.
Proof.
  intros Hg Hl Hin. rewrite Forall_forall in Hl.
  apply list_elem_of_In in Hin. destruct (Hl _ Hin) as [caller Heq].
  injection Heq as <- ->. now rewrite (guard_marked _ _ Hg).
Qed.

Lemma grabbed_exec (s : State) (tx : Tx) (a : address) :
  grabbed s a <> 0 -> grabbed (exec s tx) a <> 0.
Proof.
  intros Hne. destruct (exec_cases s tx) as [-> | [(v & _ & _ & ->) | (e & p & _ & H)]];
    [exact Hne|exact Hne|].
  destruct (grab_fields _ _ _ _ H) as (_ & _ & _ & _ & _ & _ & Fg).
  rewrite Fg. destruct (msg_sender e =? a); [lia|exact Hne].
Qed.

Lemma grabbed_run (txs : list Tx) (s : State) (a : address) :
  grabbed s a <> 0 -> grabbed (run s txs) a <> 0.
Proof.
  intros H. apply (run_invariant (fun s => grabbed s a <> 0)); [|exact H].
  intros s1 tx. apply grabbed_exec.
Qed.

Lemma call_failure (e : Env) (s : State) (err : Error) :
  snd (call e s) = Failure err -> fst (call e s) = s.
Proof.
  unfold call. destruct (grabRedPacket e s); simpl; [discriminate|reflexivity].
Qed.

Lemma guard_PoolEmpty (s : State) (a : address) :
  guard s a = Some PoolEmpty -> 0 < count s /\ totalAmount s <= 0.
Proof.
  unfold guard.
  destruct (count s >? 0) eqn:E1; simpl; [|discriminate].
  destruct (totalAmount s >? 0) eqn:E2; simpl.
  - destruct (grabbed s a =? 0); simpl; discriminate.
  - intros _. to_Z. lia.
Qed.

Lemma starved_exec (s : State) (tx : Tx) :
  starved s ->
  trace (exec s tx) = trace s /\ isGrabbed (exec s tx) = isGrabbed s /\
  count (exec s tx) = count s /\ totalAmount (exec s tx) = totalAmount s /\
  isEqual (exec s tx) = isEqual s.
Proof.
  intros (Hm & H2 & Hlt).
  destruct (exec_cases s tx) as [-> | [(w & _ & _ & ->) | (e & p & _ & H)]].
  - repeat split.
  - repeat split.
  - exfalso. pose proof (grab_done _ _ _ _ H) as (Hg & _).
    rewrite (grab_range_zero e s Hg Hm ltac:(lia) Hlt) in H. discriminate H.
Qed.

Lemma starved_run (txs : list Tx) (s : State) :
  starved s ->
  trace (run s txs) = trace s /\ isGrabbed (run s txs) = isGrabbed s /\
  count (run s txs) = count s /\ totalAmount (run s txs) = totalAmount s /\
  isEqual (run s txs) = isEqual s.
Proof.
  intros Hs.
  apply (run_invariant
           (fun s1 => trace s1 = trace s /\ isGrabbed s1 = isGrabbed s /\
                      count s1 = count s /\ totalAmount s1 = totalAmount s /\
                      isEqual s1 = isEqual s));
    [|now repeat split].
  intros s1 tx (H1 & H2 & H3 & H4 & H5).
  assert (Hs1 : starved s1) by (unfold starved in *; rewrite H3, H4, H5; exact Hs).
  destruct (starved_exec s1 tx Hs1) as (H1' & H2' & H3' & H4' & H5').
  repeat split; congruence.
Qed.

Lemma wf_exec (s : State) (tx : Tx) : wf s -> wf (exec s tx).
Proof.
  intros (HT & HN & HB).
  destruct (exec_cases s tx) as [-> | [(w & _ & Hw & ->) | (e & p & _ & H)]].
  - now repeat split.
  - unfold wf. simpl. lia.
  - destruct (grab_payout _ _ _ _ H) as (Hp & _).
    destruct (grab_fields _ _ _ _ H) as (Ft & Fc & _ & _ & Fb & _).
    pose proof (grab_done _ _ _ _ H) as (Hg & _).
    apply guard_None in Hg. unfold wf. rewrite Ft, Fc, Fb. lia.
Qed.

Lemma funded_step (e : Env) (s : State) (p : Z) (s' : State) :
  grabRedPacket e s = Done p s' -> funded s -> funded s'.
Proof.
  intros H [Hm|Hle].
  - left. destruct (grab_fields _ _ _ _ H) as (_ & _ & -> & _). exact Hm.
  - destruct (grab_payout _ _ _ _ H) as (Hp & Hp1 & _ & _ & Hr).
    destruct (grab_fields _ _ _ _ H) as (Ft & Fc & Fm & _).
    pose proof (grab_done _ _ _ _ H) as (Hg & _).
    apply guard_None in Hg. destruct Hg as (Hc & Ht & _).
    destruct (isEqual s) eqn:Hm; [left; congruence|]. right. rewrite Ft, Fc.
    destruct (Z.eq_dec (count s) 1) as [E|E]; [rewrite (Hp1 E); lia|].
    destruct (Hr ltac:(lia) eq_refl) as (_ & _ & _ & Hb). cbv zeta in Hb.
    pose proof (avg_pos (totalAmount s) (count s) ltac:(lia) Hle).
    pose proof (Z.mul_div_le (totalAmount s) (count s) ltac:(lia)).
    nia.
Qed.

(** Distinct callers that accept their payout take the shares one by one. *)
Lemma claims_succeed (envs : list Env) (s : State) :
  wf s -> funded s ->
  (0 < count s -> 0 < totalAmount s) ->
  count s = Z.of_nat (length envs) ->
  NoDup (map msg_sender envs) ->
  Forall (fun e => accepts e (msg_sender e) /\ grabbed s (msg_sender e) = 0) envs ->
  count (run s (map Claim envs)) = 0.
Proof.
  revert s. induction envs as [|e envs IH]; intros s Hwf Hf Hpos Hc Hnd Hall.
  - simpl in *. lia.
  - simpl in Hc, Hnd. apply NoDup_cons in Hnd. destruct Hnd as [Hnotin Hnd].
    apply Forall_cons in Hall. destruct Hall as [[Hacc Hg] Hall].
    assert (Hguard : guard s (msg_sender e) = None) by (apply guard_None; lia).
    destruct (grab_succeeds e s Hwf Hguard Hacc) as (p & s' & H).
    { destruct Hf as [Hm|Hle]; [right; now left|right; now right]. }
    assert (Hex : exec s (Claim e) = s') by (simpl; unfold call; now rewrite H).
    change (run s (map Claim (e :: envs))) with (run (exec s (Claim e)) (map Claim envs)).
    rewrite Hex.
    destruct (grab_payout _ _ _ _ H) as (_ & _ & Hlt & _).
    destruct (grab_fields _ _ _ _ H) as (Ft & Fc & _ & _ & _ & _ & Fg).
    apply IH.
    + rewrite <- Hex. now apply wf_exec.
    + eapply funded_step; eassumption.
    + rewrite Ft, Fc. intros. assert (2 <= count s) by lia. specialize (Hlt H1). lia.
    + rewrite Fc. lia.
    + exact Hnd.
    + rewrite Forall_forall in Hall |- *. intros e1 Hin.
      destruct (Hall e1 Hin) as [Ha Hg1]. split; [exact Ha|].
      rewrite Fg. destruct (msg_sender e =? msg_sender e1) eqn:E; to_Z; [|exact Hg1].
      exfalso. apply Hnotin. rewrite E. apply list_elem_of_fmap. now exists e1.
Qed.

Lemma guard_kinds (s : State) (a : address) (err : Error) :
  guard s a = Some err ->
  err = PoolExhausted \/ err = PoolEmpty \/ err = AlreadyClaimed.
Proof.
  unfold guard.
  destruct (count s >? 0); simpl; [|intros [= <-]; auto].
  destruct (totalAmount s >? 0); simpl; [|intros [= <-]; auto].
  destruct (grabbed s a =? 0); simpl; [discriminate|intros [= <-]; auto].
Qed.

(** No call fails with the error of the constructor. *)
Lemma call_not_InvalidConfig (e : Env) (s : State) :
  snd (call e s) <> Failure InvalidConfig.
Proof.
  unfold call. destruct (grabRedPacket e s) as [p s'|err sf] eqn:H; simpl;
    [discriminate|].
  intros [= ->]. apply grab_fail in H.
  unfold InvalidConfig, DivisionByZero, Overflow in H.
  destruct H as [[Hg _]|[_ [Hk | [Hk | Hk]]]]; try discriminate Hk.
  apply guard_kinds in Hg. unfold PoolExhausted, PoolEmpty, AlreadyClaimed in Hg.
  destruct Hg as [Hk | [Hk | Hk]]; discriminate Hk.
Qed.

(** The callbacks made during a payout never meet an empty pool. *)
Lemma probes_not_PoolEmpty (s : State) (a : address) (l : list Effect) :
  guard s a = None ->
  Forall (probe (set_isGrabbed a 1 s)) l ->
  forall caller, ~ In (Reentered caller (Failure PoolEmpty)) l.
Proof.
  intros Hg Hl caller Hin. apply guard_None in Hg. destruct Hg as (_ & Ht & _).
  rewrite Forall_forall in Hl. apply list_elem_of_In in Hin.
  destruct (Hl _ Hin) as [c Heq]. injection Heq as _ Herr.
  destruct (guard (set_isGrabbed a 1 s) c) as [err|] eqn:Hgc; [|discriminate Herr].
  subst err. apply guard_PoolEmpty in Hgc. simpl in Hgc. lia.
Qed.

Lemma nested_not_PoolEmpty (txs : list Tx) (s : State) :
  (forall caller, ~ In (Reentered caller (Failure PoolEmpty)) (trace s)) ->
  forall caller, ~ In (Reentered caller (Failure PoolEmpty)) (trace (run s txs)).
Proof.
  apply (run_invariant
           (fun s1 => forall caller,
                        ~ In (Reentered caller (Failure PoolEmpty)) (trace s1))).
  intros s1 tx Hs1.
  destruct (exec_cases s1 tx) as [-> | [(w & _ & _ & ->) | (e & p & _ & H)]];
    [exact Hs1|exact Hs1|].
  pose proof (grab_done _ _ _ _ H) as (Hg & _ & _ & _ & _ & _ & l & Hl & ->).
  intros caller Hin. simpl in Hin.
  apply in_app_or in Hin. destruct Hin as [Hin|Hin]; [now apply (Hs1 caller)|].
  destruct Hin as [Hin|[Hin|Hin]]; try discriminate Hin.
  apply in_app_or in Hin. destruct Hin as [Hin|Hin].
  - now apply (probes_not_PoolEmpty s1 (msg_sender e) l Hg Hl caller).
  - destruct Hin as [Hin|[Hin|[Hin|[]]]]; discriminate Hin.
Qed.

(** ** Claims *)

(** C1 (the code at the failing input). A Random pool created with 2 shares
    and 1 wei has [avg = 0], hence [range = max - min = 0]; a claim passes
    the guards, marks its caller and then evaluates [rand % range]: it
    panics with a division by zero instead of paying [min], and the
    transaction is rolled back. *)
Theorem C1_range_zero_panics (d : Z) (e : Env) :
  exists s0,
    constructor d 1 2 false = inr s0 /\
    (let avg := totalAmount s0 / count s0 in avg * 2 - avg / 100 = 0) /\
    grabRedPacket e s0 =
      Fail DivisionByZero
           (record (SStore_isGrabbed (msg_sender e) 1)
                   (set_isGrabbed (msg_sender e) 1 s0)) /\
    call e s0 = (s0, Failure DivisionByZero).
Proof.
  eexists. split; [reflexivity|]. split; [reflexivity|].
  assert (H : forall s, s = mkState d 1 2 false ∅ 1 [] ->
            grabRedPacket e s =
            Fail DivisionByZero
                 (record (SStore_isGrabbed (msg_sender e) 1)
                         (set_isGrabbed (msg_sender e) 1 s))).
  { intros s ->. apply grab_range_zero; simpl; try reflexivity; lia. }
  split; [now apply H|]. unfold call. now rewrite (H _ eq_refl).
Qed.

(** C2 (the code at the failing input). From a Random pool created with 2
    shares and 1 wei no claim ever succeeds: whatever transactions are run,
    nothing is paid out, both shares and the wei remain, and the next claim
    by any caller fails. *)
Theorem C2_random_pool_stuck (d : Z) (txs : list Tx) (e : Env) :
  exists s0,
    constructor d 1 2 false = inr s0 /\
    payouts (trace (run s0 txs)) = [] /\
    count (run s0 txs) = 2 /\
    totalAmount (run s0 txs) = 1 /\
    snd (call e (run s0 txs)) = Failure DivisionByZero.
Proof.
  eexists. split; [reflexivity|].
  assert (Hs : starved (mkState d 1 2 false ∅ 1 [])).
  { unfold starved; simpl. repeat split; lia. }
  destruct (starved_run txs _ Hs) as (Htr & Hgr & Hc & Ht & Hm).
  simpl in Htr, Hgr, Hc, Ht, Hm.
  split; [now rewrite Htr|]. split; [exact Hc|]. split; [exact Ht|].
  unfold call.
  rewrite (grab_range_zero e _); [reflexivity| |exact Hm|lia|lia].
  apply guard_None. unfold grabbed. rewrite Hgr, lookup_empty. simpl. lia.
Qed.

(** C3. In every successful claim the write marking the caller as claimed
    comes before the value transfer in the trace; every call the payee makes
    back into [grabRedPacket] under its own identity during the transfer is
    rejected with "Already grabbed", and so would be a call with ample gas
    made at the state the transfer runs in; no identity is ever paid twice. *)
Theorem C3_mark_before_transfer
    (d v n : Z) (eq : bool) (s0 : State) (txs : list Tx)
    (e : Env) (p : Z) (s' : State) :
  constructor d v n eq = inr s0 ->
  grabRedPacket e (run s0 txs) = Done p s' ->
  let s := run s0 txs in
  let a := msg_sender e in
  (exists l,
     trace s' =
       trace s ++ [SStore_isGrabbed a 1; Send a p] ++ l ++
         [SStore_totalAmount (totalAmount s - p); SStore_count (count s - 1);
          Grabbed a p] /\
     payouts l = [] /\
     forall r, In (Reentered a r) l -> r = Failure AlreadyClaimed) /\
  (forall l0 : list Effect,
     let mid := extend l0 (set_balance (balance s - p) (set_isGrabbed a 1 s)) in
     grabbed mid a = 1 /\ grabRedPacket e mid = Fail AlreadyClaimed mid) /\
  sent_to a (trace s) = [] /\
  sent_to a (trace s') = [p] /\
  forall b, (length (sent_to b (trace s')) <= 1)%nat.
Proof.
  intros Hc H s a.
  pose proof (grab_done _ _ _ _ H) as (Hg & _ & _ & _ & _ & _ & l & Hl & Hs').
  fold s a in Hg, Hl, Hs'.
  pose proof (ledger_run _ _ _ _ _ txs Hc) as (_ & _ & _ & _ & _ & L6 & L7).
  fold s in L6, L7.
  assert (L' : ledger n v s').
  { replace s' with (exec s (Claim e)).
    - apply ledger_step, ledger_run with (d := d) (eq := eq), Hc.
    - simpl. unfold call. fold s in H. now rewrite H. }
  destruct L' as (_ & _ & _ & _ & _ & L6' & L7').
  pose proof Hg as Hg'. apply guard_None in Hg'. destruct Hg' as (_ & _ & Hg0).
  assert (Hnone : sent_to a (trace s) = []).
  { apply length_zero_iff_nil. rewrite <- L6, L7, Hg0. reflexivity. }
  split; [|split; [|split; [|split]]].
  - exists l. split; [rewrite Hs'; reflexivity|]. split.
    + apply (probes_silent _ _ Hl).
    + intros r. apply (probe_self s a l r Hg Hl).
  - intros l0 mid. split.
    + unfold mid, grabbed. simpl. now rewrite lookup_insert_eq.
    + apply grab_rejected.
      change (guard mid (msg_sender e)) with (guard (set_isGrabbed a 1 s) a).
      apply guard_marked, Hg.
  - exact Hnone.
  - destruct (grab_trace _ _ _ _ H) as (_ & Ts). destruct (Ts a) as [Hsa _].
    fold s a in Hsa. rewrite Hsa, Hnone. fold a. now rewrite Z.eqb_refl.
  - intros b. rewrite <- L6', L7'. destruct (grabbed s' b =? 0); lia.
Qed.

(** C4 (amended). Creation fails, with "Count must be > 0", exactly when the
    share count is not positive; a pool that is created has the positive
    share count asked for and holds exactly the wei sent with the creation,
    on which there is no check; the check on the share count is made at
    creation only: no claim ever fails with that error. *)
Theorem C4_creation (d v n : Z) (eq : bool) :
  (constructor d v n eq = inl InvalidConfig <-> n <= 0) /\
  (0 < n ->
   exists s0,
     constructor d v n eq = inr s0 /\
     0 < count s0 /\ count s0 = n /\ totalAmount s0 = v /\ balance s0 = v /\
     isEqual s0 = eq /\ yideng s0 = d /\ claimed s0 = ∅ /\ trace s0 = []) /\
  (forall (e : Env) (s : State), snd (call e s) <> Failure InvalidConfig).
Proof.
  split; [|split; [|apply call_not_InvalidConfig]].
  - unfold constructor. destruct (n >? 0) eqn:E; to_Z.
    + split; [discriminate|lia].
    + split; [lia|reflexivity].
  - intros Hn. unfold constructor. destruct (n >? 0) eqn:E; to_Z; [|lia].
    eexists. split; [reflexivity|]. simpl. repeat split; lia.
Qed.

(** C5 (amended). After a successful claim by an identity, every later claim
    attempt by it fails: with "Already grabbed" while shares and wei remain,
    with "All red packets grabbed" once no share is left, with "No money left"
    when shares remain and the pool holds nothing.  A failed attempt leaves
    the state as it was, and an attempt rejected by a guard has written
    nothing when it fails. *)
Theorem C5_repeat_claim_rejected
    (e : Env) (s : State) (p : Z) (s1 : State) (txs : list Tx) (e' : Env) :
  grabRedPacket e s = Done p s1 ->
  msg_sender e' = msg_sender e ->
  let s2 := run s1 txs in
  let err := if count s2 >? 0
             then if totalAmount s2 >? 0 then AlreadyClaimed else PoolEmpty
             else PoolExhausted in
  grabRedPacket e' s2 = Fail err s2 /\
  call e' s2 = (s2, Failure err) /\
  (forall (st : State) (e2 : Env) (err2 : Error),
     snd (call e2 st) = Failure err2 ->
     fst (call e2 st) = st /\
     totalAmount (exec st (Claim e2)) = totalAmount st /\
     count (exec st (Claim e2)) = count st /\
     claimed (exec st (Claim e2)) = claimed st) /\
  (forall (st sf : State) (e2 : Env) (err2 : Error),
     grabRedPacket e2 st = Fail err2 sf ->
     err2 = PoolExhausted \/ err2 = PoolEmpty \/ err2 = AlreadyClaimed ->
     sf = st).
Proof.
  intros H Hsame s2 err.
  assert (Hmark : grabbed s2 (msg_sender e') <> 0).
  { apply grabbed_run. destruct (grab_fields _ _ _ _ H) as (_ & _ & _ & _ & _ & _ & Fg).
    rewrite Fg, Hsame, Z.eqb_refl. lia. }
  assert (Hfail : grabRedPacket e' s2 = Fail err s2).
  { apply grab_rejected. unfold guard, err.
    destruct (count s2 >? 0); simpl; [|reflexivity].
    destruct (totalAmount s2 >? 0); simpl; [|reflexivity].
    destruct (grabbed s2 (msg_sender e') =? 0) eqn:E; to_Z; [lia|reflexivity]. }
  split; [exact Hfail|]. split; [unfold call; now rewrite Hfail|]. split.
  - intros st e2 err2 Hf. simpl. now rewrite (call_failure _ _ _ Hf).
  - intros st sf e2 err2 Hf Hkind. apply grab_fail in Hf.
    destruct Hf as [[_ ->]|[_ Hk]]; [reflexivity|].
    unfold PoolExhausted, PoolEmpty, AlreadyClaimed, DivisionByZero, Overflow in *.
    destruct Hkind as [-> | [-> | ->]]; destruct Hk as [Hk | [Hk | Hk]]; discriminate Hk.
Qed.

(** C6. In both modes the successful claim made when one share is left pays
    the whole pool: it makes one transfer, of [totalAmount] wei to its
    caller, which leave the account, and logs it; it leaves no share and no
    wei.  Such a claim does succeed for a caller that is not marked and
    accepts the wei.  In every state reached from a creation, no share left
    implies no wei left. *)
Theorem C6_terminal_drain
    (d v n : Z) (eq : bool) (s0 : State) (txs : list Tx) :
  constructor d v n eq = inr s0 ->
  (count (run s0 txs) = 0 -> totalAmount (run s0 txs) = 0) /\
  (forall (s : State) (e : Env) (p : Z) (s' : State),
     grabRedPacket e s = Done p s' -> count s = 1 ->
     p = totalAmount s /\ totalAmount s' = 0 /\ count s' = 0 /\
     sends (trace s') = sends (trace s) ++ [(msg_sender e, totalAmount s)] /\
     events (trace s') = events (trace s) ++ [(msg_sender e, totalAmount s)] /\
     balance s' = balance s - totalAmount s) /\
  (forall (s : State) (e : Env),
     wf s -> count s = 1 -> 0 < totalAmount s -> grabbed s (msg_sender e) = 0 ->
     accepts e (msg_sender e) ->
     exists s', grabRedPacket e s = Done (totalAmount s) s').
Proof.
  intros Hc. split; [|split].
  - apply (ledger_run _ _ _ _ _ txs Hc).
  - intros s e p s' H H1.
    destruct (grab_payout _ _ _ _ H) as (_ & Hp & _).
    destruct (grab_fields _ _ _ _ H) as (Ft & Fc & _ & _ & Fb & _).
    destruct (grab_log _ _ _ _ H) as (He & Hs).
    rewrite Ft, Fc, Fb, He, Hs, (Hp H1), H1.
    repeat split; lia.
  - intros s e Hwf H1 Ht Hg Hacc.
    assert (Hguard : guard s (msg_sender e) = None) by (apply guard_None; lia).
    destruct (grab_succeeds e s Hwf Hguard Hacc) as (p & s' & H); [now left|].
    destruct (grab_payout _ _ _ _ H) as (_ & Hp & _).
    exists s'. now rewrite <- (Hp H1).
Qed.

(** C7. In Equal mode a successful claim with at least two shares left pays
    the floor of the pool divided by the shares, and the claim of the last
    share pays the whole remaining pool: that amount is transferred to the
    caller, leaves the account and the pool, and is logged.  The payout
    depends on the pool state only, not on the caller or the block. *)
Theorem C7_equal_mode_payout (e : Env) (s : State) (p : Z) (s' : State) :
  grabRedPacket e s = Done p s' ->
  isEqual s = true ->
  (2 <= count s -> p = totalAmount s / count s) /\
  (count s = 1 -> p = totalAmount s /\ totalAmount s' = 0) /\
  (count s = 1 \/ 2 <= count s) /\
  p = (if count s =? 1 then totalAmount s else totalAmount s / count s) /\
  sends (trace s') =
    sends (trace s) ++
    [(msg_sender e, if count s =? 1 then totalAmount s else totalAmount s / count s)] /\
  events (trace s') =
    events (trace s) ++
    [(msg_sender e, if count s =? 1 then totalAmount s else totalAmount s / count s)] /\
  balance s' =
    balance s - (if count s =? 1 then totalAmount s else totalAmount s / count s) /\
  totalAmount s' =
    totalAmount s - (if count s =? 1 then totalAmount s else totalAmount s / count s) /\
  (forall (e2 : Env) (p2 : Z) (s2 : State),
     grabRedPacket e2 s = Done p2 s2 ->
     p2 = p /\ payouts (trace s2) = payouts (trace s) ++ [p] /\
     sends (trace s2) = sends (trace s) ++ [(msg_sender e2, p)]).
Proof.
  intros H Hm.
  destruct (grab_payout _ _ _ _ H) as (_ & Hp1 & _ & Hp2 & _).
  destruct (grab_fields _ _ _ _ H) as (Ft & _ & _ & _ & Fb & _).
  destruct (grab_log _ _ _ _ H) as (He & Hs).
  pose proof (grab_done _ _ _ _ H) as (Hg & _).
  apply guard_None in Hg. destruct Hg as (Hc & _).
  assert (Hform : forall e2 p2 s2, grabRedPacket e2 s = Done p2 s2 ->
            p2 = if count s =? 1 then totalAmount s else totalAmount s / count s).
  { intros e2 p2 s2 H2.
    destruct (grab_payout _ _ _ _ H2) as (_ & Hq1 & _ & Hq2 & _).
    destruct (count s =? 1) eqn:E; to_Z; [now apply Hq1|apply Hq2; [lia|exact Hm]]. }
  pose proof (Hform e p s' H) as Hp.
  split; [intros H2; now apply Hp2|].
  split; [intros H1; split; [now apply Hp1|rewrite Ft, (Hp1 H1); lia]|].
  split; [lia|].
  split; [exact Hp|].
  split; [now rewrite <- Hp|].
  split; [now rewrite <- Hp|].
  split; [now rewrite <- Hp|].
  split; [now rewrite <- Hp|].
  intros e2 p2 s2 H2.
  assert (p2 = p) as -> by (rewrite (Hform _ _ _ H2); now symmetry).
  destruct (grab_trace _ _ _ _ H2) as (Tp & _).
  destruct (grab_log _ _ _ _ H2) as (_ & Hs2).
  now repeat split.
Qed.

(** C8. In Random mode a successful claim with at least two shares left pays
    [p] with [min <= p <= totalAmount], where [min] is the floor of a
    hundredth of the floored average, and [p] does not exceed [max], twice
    the floored average, whatever the digest drawn.  [p] is the amount of
    the one transfer the claim makes, to its caller; it leaves the account
    and the pool, and is the amount logged. *)
Theorem C8_random_mode_bounds (e : Env) (s : State) (p : Z) (s' : State) :
  grabRedPacket e s = Done p s' ->
  isEqual s = false ->
  2 <= count s ->
  let avg := totalAmount s / count s in
  let min := avg / 100 in
  let max := 2 * avg in
  (min <= p <= totalAmount s /\ p <= max) /\
  sends (trace s') = sends (trace s) ++ [(msg_sender e, p)] /\
  events (trace s') = events (trace s) ++ [(msg_sender e, p)] /\
  balance s' = balance s - p /\
  totalAmount s' = totalAmount s - p /\
  count s' = count s - 1.
Proof.
  intros H Hm H2 avg min max.
  destruct (grab_payout _ _ _ _ H) as (Hp & _ & _ & _ & Hr).
  destruct (Hr H2 Hm) as (_ & _ & _ & Hb). cbv zeta in Hb.
  destruct (grab_fields _ _ _ _ H) as (Ft & Fc & _ & _ & Fb & _).
  destruct (grab_log _ _ _ _ H) as (He & Hs).
  split; [unfold min, max, avg; lia|].
  now repeat split.
Qed.

(** C9. In every state reached from a creation with [n] shares, the number
    of identities marked claimed is [n] minus the shares left, and no
    identity has been marked more than once; no transaction unmarks an
    identity or increases the pool or the shares left, and a successful
    claim takes exactly one share and marks exactly its caller, which was
    not marked before. *)
Theorem C9_ledger_invariants
    (d v n : Z) (eq : bool) (s0 : State) (txs : list Tx) (tx : Tx) :
  constructor d v n eq = inr s0 ->
  let s := run s0 txs in
  let s' := exec s tx in
  Z.of_nat (size (claimed s)) = n - count s /\
  (forall a, (marks a (trace s) <= 1)%nat) /\
  claimed s ⊆ claimed s' /\
  totalAmount s' <= totalAmount s /\
  count s' <= count s /\
  (forall (e : Env) (p : Z),
     tx = Claim e -> snd (call e s) = Success p ->
     count s' = count s - 1 /\
     (msg_sender e ∉ claimed s) /\
     claimed s' = {[msg_sender e]} ∪ claimed s).
Proof.
  intros Hc s s'.
  pose proof (ledger_run _ _ _ _ _ txs Hc) as (L1 & _ & _ & _ & _ & _ & L7).
  fold s in L1, L7.
  split; [exact L1|]. split.
  { intros a. rewrite L7. destruct (grabbed s a =? 0); lia. }
  split.
  { intros a. rewrite !claimed_spec. apply grabbed_exec. }
  assert (Hstep : forall e p, grabRedPacket e s = Done p (exec s (Claim e)) ->
            totalAmount (exec s (Claim e)) <= totalAmount s /\
            count (exec s (Claim e)) = count s - 1 /\
            (msg_sender e ∉ claimed s) /\
            claimed (exec s (Claim e)) = {[msg_sender e]} ∪ claimed s).
  { intros e p H.
    destruct (grab_payout _ _ _ _ H) as (Hp & _).
    destruct (grab_fields _ _ _ _ H) as (Ft & Fc & _ & _ & _ & Fcl & _).
    pose proof (grab_done _ _ _ _ H) as (Hg & _).
    apply guard_None in Hg. destruct Hg as (_ & _ & Hg).
    rewrite Ft, Fc, Fcl, claimed_mark, claimed_spec. repeat split; lia. }
  unfold s'.
  destruct (exec_cases s tx) as [E | [(w & -> & _ & E) | (e & p & -> & H)]].
  - rewrite E. split; [lia|]. split; [lia|].
    intros e p -> Hs. exfalso. simpl in E. unfold call in *.
    destruct (grabRedPacket e s) as [p' s1|err sf] eqn:H; simpl in *; [|discriminate].
    assert (H' : grabRedPacket e s = Done p' (exec s (Claim e))).
    { simpl. unfold call. rewrite H. reflexivity. }
    destruct (Hstep e p' H') as (_ & Hcount & _).
    simpl in Hcount. unfold call in Hcount. rewrite H in Hcount. simpl in Hcount.
    subst s1. lia.
  - rewrite E. simpl. split; [lia|]. split; [lia|]. intros e p [=].
  - destruct (Hstep e p H) as (Ht & Hcount & Hnot & Hcl).
    split; [exact Ht|]. split; [lia|].
    intros e2 p2 [= <-] _. now repeat split.
Qed.

(** C10. For a pool created with positive funding: in every reachable state
    a share left implies wei left, so no claim fails with "No money left";
    a successful claim with at least two shares left pays strictly less than
    the pool (in Random mode at most twice the floored average minus one) and
    leaves the pool positive; the unclamped random payout never exceeds the
    pool, so the clamp never changes it; and no callback made during a payout
    has failed with "No money left" either. *)
Theorem C10_funded_pool
    (d v n : Z) (eq : bool) (s0 : State) (txs : list Tx) (e : Env) :
  constructor d v n eq = inr s0 ->
  0 < v ->
  let s := run s0 txs in
  (0 < count s -> 0 < totalAmount s) /\
  snd (call e s) <> Failure PoolEmpty /\
  (forall (p : Z) (s' : State),
     grabRedPacket e s = Done p s' -> 2 <= count s ->
     p < totalAmount s /\ 0 < totalAmount s' /\
     (isEqual s = false -> p <= totalAmount s / count s * 2 - 1)) /\
  (isEqual s = false -> 2 <= count s ->
   let avg := totalAmount s / count s in
   let max := avg * 2 in
   let min := avg / 100 in
   let range := max - min in
   let rand := uint256 (keccak256 [block_timestamp e; block_prevrandao e;
                                   msg_sender e; totalAmount s; count s]) in
   range <> 0 -> (rand mod range + min >? totalAmount s) = false) /\
  (forall caller, ~ In (Reentered caller (Failure PoolEmpty)) (trace s)).
Proof.
  intros Hc Hv s.
  pose proof (ledger_run _ _ _ _ _ txs Hc) as (_ & _ & _ & _ & L5 & _).
  fold s in L5. specialize (L5 Hv).
  split; [exact L5|]. split; [|split; [|split]].
  4: { apply nested_not_PoolEmpty. revert Hc. unfold constructor.
       destruct (n >? 0); [|discriminate]. intros [= <-] caller []. }
  - unfold call. destruct (grabRedPacket e s) as [p s'|err sf] eqn:H; simpl;
      [discriminate|].
    intros [= ->]. apply grab_fail in H.
    destruct H as [[Hg _]|[_ Hk]].
    + apply guard_PoolEmpty in Hg. lia.
    + unfold PoolEmpty, DivisionByZero, Overflow in Hk.
      destruct Hk as [Hk | [Hk | Hk]]; discriminate Hk.
  - intros p s' H H2.
    destruct (grab_payout _ _ _ _ H) as (_ & _ & Hlt & _ & Hr).
    destruct (grab_fields _ _ _ _ H) as (Ft & _).
    specialize (Hlt H2). split; [exact Hlt|]. split; [lia|].
    intros Hm. destruct (Hr H2 Hm) as (_ & _ & _ & Hb). cbv zeta in Hb. lia.
  - intros Hm H2 avg max min range rand Hr.
    destruct (random_raw_bounds (totalAmount s) (count s) rand H2 ltac:(lia) Hr)
      as [_ Hlt].
    cbv zeta in Hlt. fold avg max min range in Hlt. to_Z. lia.
Qed.

(** Conservation.  In every state reached from a creation the payouts made
    and the pool left add up to the funding, one payout per share taken.  In
    Equal mode, and in Random mode when the funding is at least one wei per
    share, as many distinct accepting callers as there are shares empty the
    pool, and the payouts then sum to the funding. *)
Theorem conservation
    (d v n : Z) (eq : bool) (s0 : State) (txs : list Tx) (envs : list Env) :
  constructor d v n eq = inr s0 ->
  (sum (payouts (trace (run s0 txs))) + totalAmount (run s0 txs) = v /\
   Z.of_nat (length (payouts (trace (run s0 txs)))) = n - count (run s0 txs)) /\
  (0 < v <= uint256_max -> n <= uint256_max ->
   eq = true \/ n <= v ->
   Z.of_nat (length envs) = n ->
   NoDup (map msg_sender envs) ->
   Forall (fun e => accepts e (msg_sender e)) envs ->
   let s := run s0 (map Claim envs) in
   count s = 0 /\ totalAmount s = 0 /\
   sum (payouts (trace s)) = v /\ Z.of_nat (length (payouts (trace s))) = n).
Proof.
  intros Hc. split.
  - pose proof (ledger_run _ _ _ _ _ txs Hc) as (_ & L2 & L3 & _). now split.
  - intros Hv Hn Hmode Hlen Hnd Hacc s.
    pose proof (ledger_run _ _ _ _ _ (map Claim envs) Hc) as (_ & L2 & L3 & L4 & _).
    fold s in L2, L3, L4.
    assert (Hz : count s = 0).
    { unfold s. revert Hc. unfold constructor. destruct (n >? 0) eqn:E; [|discriminate].
      intros [= <-]. to_Z. apply claims_succeed.
      - unfold wf, uint256_max in *. simpl. lia.
      - unfold funded. simpl. destruct Hmode as [->|Hle]; [now left|now right].
      - simpl. lia.
      - simpl. lia.
      - exact Hnd.
      - eapply Forall_impl; [exact Hacc|]. intros e Ha. split; [exact Ha|].
        unfold grabbed. simpl. now rewrite lookup_empty. }
    specialize (L4 Hz). repeat split; lia.
Qed.

(** ** Beyond the claims: failures, accounting and the event log *)

(** The failures of a call on a well-formed state that passes the guards:
    the division by zero of a starved pool, or a payee that refuses. *)
Lemma grab_fail_wf (e : Env) (s : State) (err : Error) (sf : State) :
  wf s -> guard s (msg_sender e) = None ->
  grabRedPacket e s = Fail err sf ->
  (err = DivisionByZero /\ starved s) \/
  (err = TransferFailed /\
   exists amount, 0 <= amount <= totalAmount s /\
     run_code (code_at (msg_sender e)) e (paying e amount s) = (false, sf)).
Proof.
  intros (HT & HN & HB) Hg H.
  apply guard_None in Hg. destruct Hg as (Hc0 & Ht0 & Hg).
  assert (Havg : 2 <= count s -> 0 <= totalAmount s / count s /\
                 totalAmount s / count s * 2 <= totalAmount s)
    by (intros; apply avg_bounds; lia).
  assert (Hmin : 2 <= count s -> 0 <= totalAmount s / count s / 100 <=
                 totalAmount s / count s)
    by (intros H2; apply min_bounds, Havg, H2).
  assert (Hsmall : totalAmount s / count s = 0 -> totalAmount s < count s).
  { intros H0. apply Z.div_small_iff in H0; lia. }
  pose proof (fun H1 H2 =>
    random_raw_bounds (totalAmount s) (count s)
      (uint256 (keccak256 [block_timestamp e; block_prevrandao e; msg_sender e;
                           totalAmount s; count s])) H1 H2) as Hraw.
  cbv zeta in Hraw.
  revert H. unfold_body. simpl. intros H.
  repeat split_if H.
  all: try match type of H with
           | context [run_code ?c ?e' ?s1] =>
               destruct (run_code c e' s1) as [b s2] eqn:Hrun; repeat split_if H
           end.
  all: injection H as <- <-.
  all: try (right; split; [reflexivity|];
            refine (ex_intro _ _ (conj _ Hrun));
            repeat match goal with
                   | |- context [if ?c then _ else _] => destruct c eqn:?
                   end; to_Z; lia).
  all: try (left; split; [reflexivity|]; unfold starved; to_Z;
            repeat split; try assumption; lia).
  all: exfalso.
  all: try (apply run_code_probes in Hrun; destruct Hrun as (l & -> & _); simpl in *).
  all: repeat match goal with
              | H : context [if ?c then _ else _] |- _ => destruct c eqn:?
              end.
  all: to_Z; lia.
Qed.

Lemma wf_run (d v n : Z) (eq : bool) (s0 : State) (txs : list Tx) :
  constructor d v n eq = inr s0 ->
  0 <= v <= uint256_max -> n <= uint256_max ->
  wf (run s0 txs).
Proof.
  intros Hc Hv Hn. apply run_invariant; [intros; now apply wf_exec|].
  revert Hc. unfold constructor. destruct (n >? 0) eqn:E; [|discriminate].
  intros [= <-]. to_Z. unfold wf. simpl. lia.
Qed.

Lemma funded_run (txs : list Tx) (s : State) : funded s -> funded (run s txs).
Proof.
  apply run_invariant. intros s1 tx Hf.
  destruct (exec_cases s1 tx) as [-> | [(w & _ & _ & ->) | (e & p & _ & H)]];
    [exact Hf|exact Hf|].
  eapply funded_step; eassumption.
Qed.

Lemma funded_not_starved (s : State) : funded s -> ~ starved s.
Proof.
  intros [Hm|Hle] (Hf & _ & Hlt); [congruence|lia].
Qed.

Lemma nonneg_run (d v n : Z) (eq : bool) (s0 : State) (txs : list Tx) :
  constructor d v n eq = inr s0 -> 0 <= v -> nonneg (run s0 txs).
Proof.
  intros Hc Hv. apply run_invariant.
  - intros s tx (HT & HN & HP).
    destruct (exec_cases s tx) as [-> | [(w & _ & _ & ->) | (e & p & _ & H)]];
      [now repeat split|now repeat split|].
    destruct (grab_payout _ _ _ _ H) as (Hp & _).
    destruct (grab_fields _ _ _ _ H) as (Ft & Fc & _).
    destruct (grab_trace _ _ _ _ H) as (Tp & _).
    pose proof (grab_done _ _ _ _ H) as (Hg & _).
    apply guard_None in Hg. unfold nonneg. rewrite Ft, Fc, Tp.
    split; [lia|]. split; [lia|].
    apply Forall_app. split; [exact HP|]. constructor; [lia|constructor].
  - revert Hc. unfold constructor. destruct (n >? 0) eqn:E; [|discriminate].
    intros [= <-]. to_Z. unfold nonneg. simpl. repeat split; try lia. constructor.
Qed.

(** A division by zero is the failure of a starved pool only. *)
Lemma call_div_zero (e : Env) (s : State) :
  wf s -> snd (call e s) = Failure DivisionByZero ->
  guard s (msg_sender e) = None /\ starved s.
Proof.
  intros Hwf. unfold call.
  destruct (grabRedPacket e s) as [p s'|err sf] eqn:H; simpl; [discriminate|].
  intros [= ->]. destruct (guard s (msg_sender e)) as [gerr|] eqn:Hg.
  - rewrite (grab_rejected _ _ _ Hg) in H. injection H as -> _.
    apply guard_kinds in Hg.
    unfold PoolExhausted, PoolEmpty, AlreadyClaimed, DivisionByZero in Hg.
    destruct Hg as [Hk | [Hk | Hk]]; discriminate Hk.
  - split; [reflexivity|].
    destruct (grab_fail_wf e s _ sf Hwf Hg H) as [[_ Hs]|[Hk _]];
      [exact Hs|discriminate Hk].
Qed.

(** X1. In every state reached from a creation with funding [v >= 0], the
    wei paid out so far and the pool left add up to [v]; there has been one
    payout per share taken, at most [n] in all; no payout is negative and
    the payouts never exceed the funding. *)
Theorem payouts_conserved
    (d v n : Z) (eq : bool) (s0 : State) (txs : list Tx) :
  constructor d v n eq = inr s0 ->
  0 <= v ->
  let s := run s0 txs in
  sum (payouts (trace s)) + totalAmount s = v /\
  Z.of_nat (length (payouts (trace s))) = n - count s /\
  0 <= count s <= n /\
  0 <= totalAmount s <= v /\
  0 <= sum (payouts (trace s)) <= v /\
  Forall (fun p => 0 <= p <= v) (payouts (trace s)).
Proof.
  intros Hc Hv s.
  pose proof (ledger_run _ _ _ _ _ txs Hc) as (_ & L2 & L3 & _).
  pose proof (nonneg_run _ _ _ _ _ txs Hc Hv) as (HT & HN & HP).
  fold s in L2, L3, HT, HN, HP.
  assert (Hsum : forall l, Forall (fun p => 0 <= p) l ->
            0 <= sum l /\ Forall (fun p => p <= sum l) l).
  { induction 1 as [|x l Hx _ [IH1 IH2]]; simpl; [split; [lia|constructor]|].
    split; [lia|]. constructor; [lia|].
    eapply Forall_impl; [exact IH2|]. simpl. intros; lia. }
  destruct (Hsum _ HP) as [Hs0 Hle].
  repeat split; try lia.
  rewrite Forall_forall in HP, Hle |- *. intros p Hin.
  specialize (HP p Hin). specialize (Hle p Hin). simpl in *. lia.
Qed.

(** X2. On a pool created with valid [uint256] arguments a claim never
    fails with an arithmetic overflow; it fails with a division by zero
    exactly when it passes the guards of a starved pool (Random mode, two
    shares or more, fewer wei than shares); it fails in [transfer] only when
    the code of the payee refuses the payment, never for lack of balance;
    and a caller that accepts its payment succeeds exactly when the guards
    pass and the pool is not starved. *)
Theorem claim_outcome
    (d v n : Z) (eq : bool) (s0 : State) (txs : list Tx) (e : Env) :
  constructor d v n eq = inr s0 ->
  0 <= v <= uint256_max -> n <= uint256_max ->
  let s := run s0 txs in
  snd (call e s) <> Failure Overflow /\
  (snd (call e s) = Failure DivisionByZero <->
   guard s (msg_sender e) = None /\ starved s) /\
  (snd (call e s) = Failure TransferFailed ->
   guard s (msg_sender e) = None /\ ~ starved s /\
   exists amount s1,
     0 <= amount <= totalAmount s /\
     run_code (code_at (msg_sender e)) e (paying e amount s) = (false, s1)) /\
  ((exists p, snd (call e s) = Success p) ->
   guard s (msg_sender e) = None /\ ~ starved s) /\
  (guard s (msg_sender e) = None -> ~ starved s -> accepts e (msg_sender e) ->
   exists p, snd (call e s) = Success p).
Proof.
  intros Hc Hv Hn s.
  pose proof (wf_run _ _ _ _ _ txs Hc Hv Hn) as Hwf. fold s in Hwf.
  assert (Hstarved : guard s (msg_sender e) = None -> starved s ->
                     snd (call e s) = Failure DivisionByZero).
  { intros Hg (Hm & H2 & Hlt). unfold call.
    now rewrite (grab_range_zero e s Hg Hm ltac:(lia) Hlt). }
  assert (Hfail : forall err, snd (call e s) = Failure err ->
            (guard s (msg_sender e) = Some err) \/
            (guard s (msg_sender e) = None /\
             ((err = DivisionByZero /\ starved s) \/
              (err = TransferFailed /\
               exists amount s1, 0 <= amount <= totalAmount s /\
                 run_code (code_at (msg_sender e)) e (paying e amount s) = (false, s1))))).
  { intros err. unfold call.
    destruct (grabRedPacket e s) as [p s'|err' sf] eqn:H; simpl; [discriminate|].
    intros [= ->]. destruct (guard s (msg_sender e)) as [gerr|] eqn:Hg.
    - left. rewrite (grab_rejected _ _ _ Hg) in H. now injection H as <- _.
    - right. split; [reflexivity|].
      destruct (grab_fail_wf e s err sf Hwf Hg H) as [Hd|[Ht (amount & Ha & Hr)]];
        [now left|right]. split; [exact Ht|]. now exists amount, sf. }
  assert (Hkinds : forall err, guard s (msg_sender e) = Some err ->
            err <> Overflow /\ err <> DivisionByZero /\ err <> TransferFailed).
  { intros err Hg. apply guard_kinds in Hg.
    unfold PoolExhausted, PoolEmpty, AlreadyClaimed, Overflow, DivisionByZero in *.
    destruct Hg as [-> | [-> | ->]]; repeat split; discriminate. }
  split; [|split; [|split; [|split]]].
  - intros H. destruct (Hfail _ H) as [Hg|[_ [[Hk _]|[Hk _]]]]; try discriminate Hk.
    now apply Hkinds in Hg.
  - split.
    + intros H. destruct (Hfail _ H) as [Hg|[Hg [[_ Hs]|[Hk _]]]]; try discriminate Hk.
      * now apply Hkinds in Hg.
      * now split.
    + intros [Hg Hs]. now apply Hstarved.
  - intros H. destruct (Hfail _ H) as [Hg|[Hg [[Hk _]|[_ Hr]]]]; try discriminate Hk.
    + now apply Hkinds in Hg.
    + split; [exact Hg|]. split; [|exact Hr].
      intros Hs. rewrite (Hstarved Hg Hs) in H. discriminate H.
  - intros [p Hp]. unfold call in Hp.
    destruct (grabRedPacket e s) as [p' s'|err sf] eqn:H; simpl in Hp; [|discriminate].
    pose proof (grab_done _ _ _ _ H) as (Hg & _). split; [exact Hg|].
    intros Hs. pose proof (Hstarved Hg Hs) as Hd. unfold call in Hd.
    rewrite H in Hd. discriminate Hd.
  - intros Hg Hs Hacc.
    destruct (grab_succeeds e s Hwf Hg Hacc) as (p & s' & H).
    + apply guard_None in Hg. unfold starved in Hs.
      destruct (isEqual s); [right; now left|].
      destruct (Z.eq_dec (count s) 1); [now left|].
      destruct (Z_le_gt_dec (count s) (totalAmount s)); [right; now right|].
      exfalso. apply Hs. repeat split; lia.
    + exists p. unfold call. now rewrite H.
Qed.

(** X3. A pool created in Equal mode, or in Random mode with at least one
    wei per share, keeps at least one wei per share left in Random mode, in
    every reachable state: it is never starved and no claim on it ever fails
    with a division by zero. *)
Theorem funded_pool_never_starves
    (d v n : Z) (eq : bool) (s0 : State) (txs : list Tx) (e : Env) :
  constructor d v n eq = inr s0 ->
  0 <= v <= uint256_max -> n <= uint256_max ->
  eq = true \/ n <= v ->
  let s := run s0 txs in
  (isEqual s = true \/ count s <= totalAmount s) /\
  ~ starved s /\
  snd (call e s) <> Failure DivisionByZero.
Proof.
  intros Hc Hv Hn Hmode s.
  assert (Hf : funded s).
  { apply funded_run. revert Hc. unfold constructor.
    destruct (n >? 0); [|discriminate]. intros [= <-]. unfold funded. simpl.
    destruct Hmode as [->|Hle]; [now left|now right]. }
  split; [exact Hf|]. split; [now apply funded_not_starved|].
  intros H.
  apply call_div_zero in H; [|now apply (wf_run d v n eq)].
  now apply (funded_not_starved s Hf).
Qed.

(** X4. A pool created in Random mode with two shares or more and fewer wei
    than shares stays as created for ever: whatever transactions are run,
    nothing is paid, nobody is marked, shares and pool are unchanged, and
    every claim fails (with a division by zero when the pool is not empty). *)
Theorem starved_pool_locked
    (d v n : Z) (s0 : State) (txs : list Tx) (e : Env) :
  constructor d v n false = inr s0 ->
  2 <= n -> v < n ->
  let s := run s0 txs in
  trace s = [] /\ count s = n /\ totalAmount s = v /\ claimed s = ∅ /\
  (exists err, call e s = (s, Failure err)) /\
  (0 < v -> call e s = (s, Failure DivisionByZero)).
Proof.
  intros Hc H2 Hlt s.
  revert Hc. unfold constructor. destruct (n >? 0) eqn:E; [|discriminate].
  intros [= Hs0].
  assert (Hs : starved s0) by (subst s0; unfold starved; simpl; repeat split; lia).
  destruct (starved_run txs s0 Hs) as (Htr & Hgr & Hcnt & Htot & Hm).
  fold s in Htr, Hgr, Hcnt, Htot, Hm. subst s0. simpl in *.
  assert (Hcl : claimed s = ∅).
  { unfold claimed. rewrite Hgr. now rewrite map_filter_empty, dom_empty_L. }
  assert (Hdiv : guard s (msg_sender e) = None -> call e s = (s, Failure DivisionByZero)).
  { intros Hg. unfold call.
    rewrite (grab_range_zero e s Hg); [reflexivity|exact Hm|lia|lia]. }
  repeat split; try assumption.
  - destruct (guard s (msg_sender e)) as [err|] eqn:Hg.
    + exists err. unfold call. now rewrite (grab_rejected _ _ _ Hg).
    + exists DivisionByZero. now apply Hdiv.
  - intros Hpos. apply Hdiv. apply guard_None. unfold grabbed.
    rewrite Hgr, lookup_empty. simpl. lia.
Qed.

Lemma even_split_exec (q : Z) (s : State) (tx : Tx) :
  even_split q s -> even_split q (exec s tx).
Proof.
  intros (Hm & Hb & HP).
  destruct (exec_cases s tx) as [-> | [(w & _ & _ & ->) | (e & p & _ & H)]];
    [now repeat split|now repeat split|].
  destruct (grab_payout _ _ _ _ H) as (_ & Hp1 & _ & Hp2 & _).
  destruct (grab_fields _ _ _ _ H) as (Ft & Fc & Fm & _).
  destruct (grab_trace _ _ _ _ H) as (Tp & _).
  pose proof (grab_done _ _ _ _ H) as (Hg & _).
  apply guard_None in Hg. destruct Hg as (Hc & Ht & _).
  assert (Hp : (p = q \/ p = q + 1) /\
               q * (count s - 1) <= totalAmount s - p <= (q + 1) * (count s - 1)).
  { destruct (Z.eq_dec (count s) 1) as [E|E].
    - rewrite (Hp1 E). rewrite E in *. lia.
    - assert (H2 : 2 <= count s) by lia.
      rewrite (Hp2 H2 Hm).
      pose proof (Z.mul_div_le (totalAmount s) (count s) ltac:(lia)) as Hlo.
      pose proof (Z.mul_succ_div_gt (totalAmount s) (count s) ltac:(lia)) as Hhi.
      assert (Hq1 : q <= totalAmount s / count s)
        by (apply Z.div_le_lower_bound; lia).
      assert (Hq2 : totalAmount s / count s <= q + 1)
        by (apply Z.div_le_upper_bound; lia).
      set (a := totalAmount s / count s) in *.
      assert (Ha : a = q \/ a = q + 1) by lia.
      split; [exact Ha|]. destruct Ha as [->| ->]; nia. }
  destruct Hp as [Hpq Hb'].
  unfold even_split. rewrite Ft, Fc, Fm, Tp. split; [exact Hm|]. split; [exact Hb'|].
  apply Forall_app. split; [exact HP|]. constructor; [exact Hpq|constructor].
Qed.

(** X5. In Equal mode every payout, the last one included, is the floor of
    the funding divided by the share count, or that plus one: the remainder
    of the division is spread one wei at a time over the last claims, and
    the pool left always lies between [q] and [q + 1] wei per share left. *)
Theorem equal_mode_fair (d v n : Z) (s0 : State) (txs : list Tx) :
  constructor d v n true = inr s0 ->
  let q := v / n in
  let s := run s0 txs in
  Forall (fun p => p = q \/ p = q + 1) (payouts (trace s)) /\
  q * count s <= totalAmount s <= (q + 1) * count s.
Proof.
  intros Hc q s.
  assert (H : even_split q s).
  { apply run_invariant; [intros; now apply even_split_exec|].
    revert Hc. unfold constructor. destruct (n >? 0) eqn:E; [|discriminate].
    intros [= <-]. to_Z. unfold even_split. simpl.
    pose proof (Z.mul_div_le v n ltac:(lia)).
    pose proof (Z.mul_succ_div_gt v n ltac:(lia)).
    fold q in H, H0. repeat split; try lia. constructor. }
  destruct H as (_ & Hb & HP). now split.
Qed.

Lemma logged_exec (s : State) (tx : Tx) : logged s -> logged (exec s tx).
Proof.
  intros (L1 & L2 & L3 & L4).
  destruct (exec_cases s tx) as [-> | [(w & _ & _ & ->) | (e & p & _ & H)]];
    [exact (conj L1 (conj L2 (conj L3 L4)))|exact (conj L1 (conj L2 (conj L3 L4)))|].
  destruct (grab_log _ _ _ _ H) as (He & Hs).
  destruct (grab_fields _ _ _ _ H) as (_ & _ & _ & _ & _ & _ & Fg).
  pose proof (grab_done _ _ _ _ H) as (Hg & _).
  apply guard_None in Hg. destruct Hg as (_ & _ & Hg).
  unfold logged. rewrite He, Hs, L1, map_app. simpl.
  split; [reflexivity|]. split; [|split].
  - apply NoDup_app. split; [now rewrite <- L1|]. split; [|apply NoDup_singleton].
    intros a Ha Hin. apply list_elem_of_singleton in Hin. subst a.
    rewrite <- L1 in Ha. apply L4 in Ha. lia.
  - intros a. rewrite Fg. destruct (msg_sender e =? a); [now right|apply L3].
  - intros a. rewrite Fg, elem_of_app, list_elem_of_singleton, <- L1, <- L4.
    destruct (msg_sender e =? a) eqn:E; to_Z.
    + split; [now right|reflexivity].
    + split; [now left|]. intros [Ha|Ha]; [exact Ha|congruence].
Qed.

Lemma logged_run (d v n : Z) (eq : bool) (s0 : State) (txs : list Tx) :
  constructor d v n eq = inr s0 -> logged (run s0 txs).
Proof.
  intros Hc. apply run_invariant; [intros; now apply logged_exec|].
  revert Hc. unfold constructor. destruct (n >? 0); [|discriminate].
  intros [= <-]. unfold logged, grabbed. simpl.
  split; [reflexivity|]. split; [constructor|]. split.
  - intros a. left. now rewrite lookup_empty.
  - intros a. rewrite lookup_empty. simpl. split; [discriminate|].
    intros Hin. now apply not_elem_of_nil in Hin.
Qed.

Lemma sends_payouts (l : list Effect) : map snd (sends l) = payouts l.
Proof.
  induction l as [|eff l IH]; simpl; [reflexivity|].
  destruct eff; simpl; try exact IH. now rewrite IH.
Qed.

(** X6. The event log mirrors the transfers: in every reachable state the
    [Grabbed] events list, in the same order, exactly the accounts and
    amounts of the transfers made, and no account appears twice. *)
Theorem events_mirror_sends
    (d v n : Z) (eq : bool) (s0 : State) (txs : list Tx) :
  constructor d v n eq = inr s0 ->
  let s := run s0 txs in
  events (trace s) = sends (trace s) /\
  map snd (events (trace s)) = payouts (trace s) /\
  NoDup (map fst (events (trace s))).
Proof.
  intros Hc s. destruct (logged_run _ _ _ _ _ txs Hc) as (L1 & L2 & _).
  fold s in L1, L2. split; [exact L1|]. split; [|exact L2].
  rewrite L1. apply sends_payouts.
Qed.

(** X7. The flag of an account is 0 or 1; it is 1 exactly when the account
    has been paid, which is when the log holds an event for it; the owner
    and the mode stay as set at creation. *)
Theorem flags_and_config
    (d v n : Z) (eq : bool) (s0 : State) (txs : list Tx) (a : address) :
  constructor d v n eq = inr s0 ->
  let s := run s0 txs in
  (grabbed s a = 0 \/ grabbed s a = 1) /\
  (grabbed s a = 1 <-> sent_to a (trace s) <> []) /\
  (grabbed s a = 1 <-> a ∈ map fst (events (trace s))) /\
  (grabbed s a = 1 <-> a ∈ claimed s) /\
  yideng s = d /\ isEqual s = eq.
Proof.
  intros Hc s.
  destruct (logged_run _ _ _ _ _ txs Hc) as (_ & _ & L3 & L4).
  pose proof (ledger_run _ _ _ _ _ txs Hc) as (_ & _ & _ & _ & _ & L6 & L7).
  fold s in L3, L4, L6, L7.
  split; [apply L3|]. split; [|split; [apply L4|split]].
  - specialize (L6 a). specialize (L7 a). rewrite L6 in L7.
    destruct (L3 a) as [H0|H1].
    + rewrite H0 in *. simpl in L7. apply length_zero_iff_nil in L7.
      split; [discriminate|congruence].
    + rewrite H1 in *. simpl in L7. split; [|reflexivity].
      intros _ Hnil. rewrite Hnil in L7. discriminate L7.
  - rewrite claimed_spec. destruct (L3 a); lia.
  - assert (H : yideng s = yideng s0 /\ isEqual s = isEqual s0).
    { apply (run_invariant (fun s1 => yideng s1 = yideng s0 /\ isEqual s1 = isEqual s0));
        [|now split].
      intros s1 tx [Hy Hm].
      destruct (exec_cases s1 tx) as [-> | [(w & _ & _ & ->) | (e & p & _ & H)]];
        [now split|now split|].
      destruct (grab_fields _ _ _ _ H) as (_ & _ & -> & -> & _). now split. }
    revert Hc H. unfold constructor. destruct (n >? 0); [|discriminate].
    intros [= <-]. simpl. tauto.
Qed.

Lemma forced_total_nonneg (txs : list Tx) : 0 <= forced_total txs.
Proof.
  induction txs as [|[e|w] txs IH]; simpl; [lia|exact IH|].
  destruct (w >? 0) eqn:E; to_Z; lia.
Qed.

Lemma surplus_run (txs : list Tx) (s : State) :
  balance (run s txs) - totalAmount (run s txs) =
  balance s - totalAmount s + forced_total txs.
Proof.
  revert s. induction txs as [|tx txs IH]; intros s; simpl; [lia|].
  change (fold_left exec txs (exec s tx)) with (run (exec s tx) txs).
  rewrite IH.
  destruct (exec_cases s tx) as [E | [(w & -> & Hw & E) | (e & p & -> & H)]].
  - rewrite E. destruct tx as [e|w]; simpl; [lia|].
    simpl in E. destruct (w >? 0) eqn:Ew; [|lia].
    exfalso. to_Z. apply (f_equal balance) in E. simpl in E. lia.
  - rewrite E. simpl. destruct (w >? 0) eqn:Ew; to_Z; lia.
  - destruct (grab_fields _ _ _ _ H) as (Ft & _ & _ & _ & Fb & _).
    rewrite Ft, Fb. simpl. lia.
Qed.

(** X8. The account always holds the pool plus the wei forced into it: a
    claim moves exactly its payout and nothing more.  The forced wei is
    never paid out, and once the last share is taken the balance is that
    forced wei and every call is rejected: it stays in the account. *)
Theorem forced_wei_locked
    (d v n : Z) (eq : bool) (s0 : State) (txs : list Tx) :
  constructor d v n eq = inr s0 ->
  0 <= v ->
  let s := run s0 txs in
  balance s = totalAmount s + forced_total txs /\
  totalAmount s <= balance s /\
  forced_total txs <= balance s /\
  (count s = 0 ->
   balance s = forced_total txs /\
   forall e, call e s = (s, Failure PoolExhausted)).
Proof.
  intros Hc Hv s.
  pose proof (surplus_run txs s0) as Hs. fold s in Hs.
  pose proof (nonneg_run _ _ _ _ _ txs Hc Hv) as (HT & _). fold s in HT.
  pose proof (ledger_run _ _ _ _ _ txs Hc) as (_ & _ & _ & L4 & _). fold s in L4.
  pose proof (forced_total_nonneg txs) as Hf.
  assert (H0 : balance s0 = totalAmount s0).
  { revert Hc. unfold constructor. destruct (n >? 0); [|discriminate].
    now intros [= <-]. }
  split; [lia|]. split; [lia|]. split; [lia|].
  intros Hz. split; [rewrite (L4 Hz) in Hs; lia|].
  intros e. unfold call. rewrite (grab_rejected e s PoolExhausted); [reflexivity|].
  unfold guard. destruct (count s >? 0) eqn:E; to_Z; [lia|reflexivity].
Qed.

Lemma claims_logged (envs : list Env) (s : State) :
  wf s -> funded s ->
  (0 < count s -> 0 < totalAmount s) ->
  count s = Z.of_nat (length envs) ->
  NoDup (map msg_sender envs) ->
  Forall (fun e => accepts e (msg_sender e) /\ grabbed s (msg_sender e) = 0) envs ->
  map fst (events (trace (run s (map Claim envs)))) =
  map fst (events (trace s)) ++ map msg_sender envs.
Proof.
  revert s. induction envs as [|e envs IH]; intros s Hwf Hf Hpos Hc Hnd Hall.
  - simpl. now rewrite app_nil_r.
  - simpl in Hc, Hnd. apply NoDup_cons in Hnd. destruct Hnd as [Hnotin Hnd].
    apply Forall_cons in Hall. destruct Hall as [[Hacc Hg] Hall].
    assert (Hguard : guard s (msg_sender e) = None) by (apply guard_None; lia).
    destruct (grab_succeeds e s Hwf Hguard Hacc) as (p & s' & H).
    { destruct Hf as [Hm|Hle]; [right; now left|right; now right]. }
    assert (Hex : exec s (Claim e) = s') by (simpl; unfold call; now rewrite H).
    change (run s (map Claim (e :: envs))) with (run (exec s (Claim e)) (map Claim envs)).
    rewrite Hex.
    destruct (grab_payout _ _ _ _ H) as (_ & _ & Hlt & _).
    destruct (grab_fields _ _ _ _ H) as (Ft & Fc & _ & _ & _ & _ & Fg).
    destruct (grab_log _ _ _ _ H) as (He & _).
    rewrite IH.
    + rewrite He, map_app. simpl. now rewrite <- app_assoc.
    + rewrite <- Hex. now apply wf_exec.
    + eapply funded_step; eassumption.
    + rewrite Ft, Fc. intros. assert (H2 : 2 <= count s) by lia.
      specialize (Hlt H2). lia.
    + rewrite Fc. lia.
    + exact Hnd.
    + rewrite Forall_forall in Hall |- *. intros e1 Hin.
      destruct (Hall e1 Hin) as [Ha Hg1]. split; [exact Ha|].
      rewrite Fg. destruct (msg_sender e =? msg_sender e1) eqn:E; to_Z; [|exact Hg1].
      exfalso. apply Hnotin. rewrite E. apply list_elem_of_fmap. now exists e1.
Qed.

(** X9. On a pool created with positive funding in Equal mode, or in Random
    mode with at least one wei per share, as many distinct callers as there
    are shares, each accepting its payment, all succeed when they claim one
    after the other: the log names them in their order, no share and no wei
    is left, and their payouts sum to the funding. *)
Theorem funded_pool_drains
    (d v n : Z) (eq : bool) (s0 : State) (envs : list Env) :
  constructor d v n eq = inr s0 ->
  0 < v <= uint256_max -> n <= uint256_max ->
  eq = true \/ n <= v ->
  Z.of_nat (length envs) = n ->
  NoDup (map msg_sender envs) ->
  Forall (fun e => accepts e (msg_sender e)) envs ->
  let s := run s0 (map Claim envs) in
  map fst (events (trace s)) = map msg_sender envs /\
  count s = 0 /\ totalAmount s = 0 /\
  sum (payouts (trace s)) = v.
Proof.
  intros Hc Hv Hn Hmode Hlen Hnd Hacc s.
  destruct (conservation d v n eq s0 [] envs Hc) as [_ Hdrain].
  destruct (Hdrain Hv Hn Hmode Hlen Hnd Hacc) as (H0 & HT & HS & _).
  fold s in H0, HT, HS. split; [|now repeat split].
  unfold s. revert Hc. unfold constructor. destruct (n >? 0) eqn:E; [|discriminate].
  intros [= <-]. to_Z.
  rewrite claims_logged; [reflexivity| | | | |exact Hnd|].
  - unfold wf, uint256_max in *. simpl. lia.
  - unfold funded. simpl. destruct Hmode as [->|Hle]; [now left|now right].
  - simpl. lia.
  - simpl. lia.
  - eapply Forall_impl; [exact Hacc|]. intros e Ha. split; [exact Ha|].
    unfold grabbed. simpl. now rewrite lookup_empty.
Qed.

End Contract.

(** ** The theorems on the sample world *)

Lemma C3_mark_before_transfer_witness :
  constructor 9 100 2 false = inr random_pool /\
  grabRedPacket sample_keccak sample_code alice random_pool =
    Done 55 (exec sample_keccak sample_code random_pool (Claim alice)) /\
  sent_to 1 (trace (exec sample_keccak sample_code random_pool (Claim alice))) = [55].
Proof.
  split; [reflexivity|]. split; [vm_compute; reflexivity|].
  pose proof (C3_mark_before_transfer sample_keccak sample_code 9 100 2 false
                random_pool [] alice 55
                (exec sample_keccak sample_code random_pool (Claim alice))
                eq_refl) as H.
  apply H. vm_compute; reflexivity.
Defined.

Lemma C4_counterexample :
  constructor 9 0 1 false = inr (mkState 9 0 1 false ∅ 0 []) /\
  ~ (forall (d v n : Z) (eq : bool) (s0 : State),
       constructor d v n eq = inr s0 -> 0 < count s0 /\ 0 < totalAmount s0).
Proof.
  split; [reflexivity|].
  intros H. destruct (H 9 0 1 false _ eq_refl) as [_ Hv]. simpl in Hv. lia.
Qed.

Lemma C4_creation_witness :
  exists s0, constructor 9 0 1 false = inr s0 /\ count s0 = 1 /\ totalAmount s0 = 0.
Proof.
  destruct (C4_creation sample_keccak sample_code 9 0 1 false) as (_ & H & _).
  destruct (H ltac:(lia)) as (s0 & Hc & _ & Hn & Hv & _).
  exists s0. repeat split; assumption.
Defined.

Lemma C5_counterexample :
  grabRedPacket sample_keccak sample_code alice (mkState 9 5 1 true ∅ 5 []) =
    Done 5 (exec sample_keccak sample_code (mkState 9 5 1 true ∅ 5 []) (Claim alice)) /\
  snd (call sample_keccak sample_code alice
         (exec sample_keccak sample_code (mkState 9 5 1 true ∅ 5 []) (Claim alice))) =
    Failure PoolExhausted /\
  ~ (forall (e : Env) (s : State) (p : Z) (s1 : State),
       grabRedPacket sample_keccak sample_code e s = Done p s1 ->
       snd (call sample_keccak sample_code e s1) = Failure AlreadyClaimed).
Proof.
  split; [vm_compute; reflexivity|]. split; [vm_compute; reflexivity|].
  intros H.
  specialize (H alice (mkState 9 5 1 true ∅ 5 []) 5
                (exec sample_keccak sample_code (mkState 9 5 1 true ∅ 5 []) (Claim alice))).
  assert (Hd : grabRedPacket sample_keccak sample_code alice (mkState 9 5 1 true ∅ 5 []) =
               Done 5 (exec sample_keccak sample_code (mkState 9 5 1 true ∅ 5 [])
                            (Claim alice)))
    by (vm_compute; reflexivity).
  specialize (H Hd). vm_compute in H. discriminate H.
Qed.

Lemma C5_repeat_claim_rejected_witness :
  grabRedPacket sample_keccak sample_code alice random_pool =
    Done 55 (exec sample_keccak sample_code random_pool (Claim alice)) /\
  msg_sender alice = msg_sender alice /\
  snd (call sample_keccak sample_code alice
         (exec sample_keccak sample_code random_pool (Claim alice))) =
    Failure AlreadyClaimed.
Proof.
  assert (Hd : grabRedPacket sample_keccak sample_code alice random_pool =
               Done 55 (exec sample_keccak sample_code random_pool (Claim alice)))
    by (vm_compute; reflexivity).
  split; [exact Hd|]. split; [reflexivity|].
  pose proof (C5_repeat_claim_rejected sample_keccak sample_code alice random_pool 55
                _ [] alice Hd eq_refl) as H.
  cbv zeta in H. destruct H as (_ & Hcall & _).
  exact (f_equal snd Hcall).
Defined.

Lemma C6_terminal_drain_witness :
  constructor 9 100 2 false = inr random_pool /\
  totalAmount (run sample_keccak sample_code random_pool [Claim alice; Claim bob]) = 0 /\
  sends (trace (run sample_keccak sample_code random_pool [Claim alice; Claim bob])) =
    [(msg_sender alice, 55); (msg_sender bob, 45)] /\
  balance (run sample_keccak sample_code random_pool [Claim alice; Claim bob]) = 0.
Proof.
  split; [reflexivity|].
  pose proof (C6_terminal_drain sample_keccak sample_code 9 100 2 false random_pool
                [Claim alice; Claim bob] eq_refl) as (Hrun & Hlast & _).
  split; [apply Hrun; vm_compute; reflexivity|].
  assert (Hd : grabRedPacket sample_keccak sample_code bob
                 (run sample_keccak sample_code random_pool [Claim alice]) =
               Done 45 (run sample_keccak sample_code random_pool [Claim alice; Claim bob]))
    by (vm_compute; reflexivity).
  destruct (Hlast _ bob 45 _ Hd eq_refl) as (_ & _ & _ & Hs & _ & Hb).
  split; [exact Hs|exact Hb].
Defined.

Lemma C7_equal_mode_payout_witness :
  grabRedPacket sample_keccak sample_code alice equal_pool =
    Done 33 (exec sample_keccak sample_code equal_pool (Claim alice)) /\
  isEqual equal_pool = true /\
  33 = totalAmount equal_pool / count equal_pool /\
  sends (trace (exec sample_keccak sample_code equal_pool (Claim alice))) =
    [(msg_sender alice, 33)] /\
  balance (exec sample_keccak sample_code equal_pool (Claim alice)) = 67.
Proof.
  assert (Hd : grabRedPacket sample_keccak sample_code alice equal_pool =
               Done 33 (exec sample_keccak sample_code equal_pool (Claim alice)))
    by (vm_compute; reflexivity).
  split; [exact Hd|]. split; [reflexivity|].
  destruct (C7_equal_mode_payout sample_keccak sample_code alice equal_pool 33 _ Hd eq_refl)
    as (Hp & _ & _ & _ & Hs & _ & Hb & _).
  split; [apply Hp; simpl; lia|]. split; [exact Hs|exact Hb].
Defined.

Lemma C8_random_mode_bounds_witness :
  grabRedPacket sample_keccak sample_code alice random_pool =
    Done 55 (exec sample_keccak sample_code random_pool (Claim alice)) /\
  isEqual random_pool = false /\
  2 <= count random_pool /\
  (100 / 2 / 100 <= 55 <= 100 /\ 55 <= 2 * (100 / 2)) /\
  sends (trace (exec sample_keccak sample_code random_pool (Claim alice))) =
    [(msg_sender alice, 55)] /\
  balance (exec sample_keccak sample_code random_pool (Claim alice)) = 45.
Proof.
  assert (Hd : grabRedPacket sample_keccak sample_code alice random_pool =
               Done 55 (exec sample_keccak sample_code random_pool (Claim alice)))
    by (vm_compute; reflexivity).
  assert (H2 : 2 <= count random_pool) by (simpl; lia).
  split; [exact Hd|]. split; [reflexivity|]. split; [exact H2|].
  pose proof (C8_random_mode_bounds sample_keccak sample_code alice random_pool 55 _
                Hd eq_refl H2) as H.
  cbv zeta in H. destruct H as (Hb & Hs & _ & Hbal & _).
  split; [exact Hb|]. split; [exact Hs|exact Hbal].
Defined.

Lemma C9_ledger_invariants_witness :
  constructor 9 100 2 false = inr random_pool /\
  Z.of_nat (size (claimed (run sample_keccak sample_code random_pool [Claim alice]))) =
    2 - count (run sample_keccak sample_code random_pool [Claim alice]).
Proof.
  split; [reflexivity|].
  apply (C9_ledger_invariants sample_keccak sample_code 9 100 2 false random_pool
           [Claim alice] (Claim bob) eq_refl).
Defined.

Lemma C10_funded_pool_witness :
  constructor 9 100 2 false = inr random_pool /\
  0 < 100 /\
  snd (call sample_keccak sample_code bob
         (run sample_keccak sample_code random_pool [Claim alice])) <> Failure PoolEmpty.
Proof.
  split; [reflexivity|]. split; [lia|].
  apply (C10_funded_pool sample_keccak sample_code 9 100 2 false random_pool
           [Claim alice] bob eq_refl).
  lia.
Defined.

(** ** The further theorems on the sample world *)

Lemma payouts_conserved_witness :
  constructor 9 100 2 false = inr random_pool /\
  0 <= 100 /\
  sum (payouts (trace (run sample_keccak sample_code random_pool
                           [Claim alice; Forced 7; Claim bob]))) +
  totalAmount (run sample_keccak sample_code random_pool
                   [Claim alice; Forced 7; Claim bob]) = 100.
Proof.
  split; [reflexivity|]. split; [lia|].
  apply (payouts_conserved sample_keccak sample_code 9 100 2 false random_pool
           [Claim alice; Forced 7; Claim bob] eq_refl).
  lia.
Defined.

Lemma claim_outcome_witness :
  constructor 9 100 2 false = inr random_pool /\
  0 <= 100 <= uint256_max /\ 2 <= uint256_max /\
  snd (call sample_keccak sample_code bob
         (run sample_keccak sample_code random_pool [Claim alice])) <>
    Failure Overflow.
Proof.
  assert (H1 : 0 <= 100 <= uint256_max) by (unfold uint256_max; lia).
  assert (H2 : 2 <= uint256_max) by (unfold uint256_max; lia).
  split; [reflexivity|]. split; [exact H1|]. split; [exact H2|].
  apply (claim_outcome sample_keccak sample_code 9 100 2 false random_pool
           [Claim alice] bob eq_refl H1 H2).
Defined.

Lemma funded_pool_never_starves_witness :
  constructor 9 100 2 false = inr random_pool /\
  0 <= 100 <= uint256_max /\ 2 <= uint256_max /\
  (false = true \/ 2 <= 100) /\
  snd (call sample_keccak sample_code bob
         (run sample_keccak sample_code random_pool [Claim alice])) <>
    Failure DivisionByZero.
Proof.
  assert (H1 : 0 <= 100 <= uint256_max) by (unfold uint256_max; lia).
  assert (H2 : 2 <= uint256_max) by (unfold uint256_max; lia).
  assert (H3 : false = true \/ 2 <= 100) by (right; lia).
  split; [reflexivity|]. split; [exact H1|]. split; [exact H2|]. split; [exact H3|].
  apply (funded_pool_never_starves sample_keccak sample_code 9 100 2 false random_pool
           [Claim alice] bob eq_refl H1 H2 H3).
Defined.

Lemma starved_pool_locked_witness :
  constructor 9 2 3 false = inr (mkState 9 2 3 false ∅ 2 []) /\
  2 <= 3 /\ 2 < 3 /\
  totalAmount (run sample_keccak sample_code (mkState 9 2 3 false ∅ 2 [])
                   [Claim alice; Claim bob]) = 2.
Proof.
  split; [reflexivity|]. split; [lia|]. split; [lia|].
  apply (starved_pool_locked sample_keccak sample_code 9 2 3
           (mkState 9 2 3 false ∅ 2 []) [Claim alice; Claim bob] alice eq_refl);
    lia.
Defined.

Lemma equal_mode_fair_witness :
  constructor 9 100 3 true = inr equal_pool /\
  Forall (fun p => p = 100 / 3 \/ p = 100 / 3 + 1)
         (payouts (trace (run sample_keccak sample_code equal_pool
                              [Claim alice; Claim bob]))).
Proof.
  split; [reflexivity|].
  apply (equal_mode_fair sample_keccak sample_code 9 100 3 equal_pool
           [Claim alice; Claim bob] eq_refl).
Defined.

Lemma events_mirror_sends_witness :
  constructor 9 100 2 false = inr random_pool /\
  events (trace (run sample_keccak sample_code random_pool [Claim alice; Claim bob])) =
  sends (trace (run sample_keccak sample_code random_pool [Claim alice; Claim bob])).
Proof.
  split; [reflexivity|].
  apply (events_mirror_sends sample_keccak sample_code 9 100 2 false random_pool
           [Claim alice; Claim bob] eq_refl).
Defined.

Lemma flags_and_config_witness :
  constructor 9 100 2 false = inr random_pool /\
  yideng (run sample_keccak sample_code random_pool [Claim alice; Claim bob]) = 9.
Proof.
  split; [reflexivity|].
  apply (flags_and_config sample_keccak sample_code 9 100 2 false random_pool
           [Claim alice; Claim bob] 1 eq_refl).
Defined.

Lemma forced_wei_locked_witness :
  constructor 9 100 2 false = inr random_pool /\
  0 <= 100 /\
  balance (run sample_keccak sample_code random_pool
               [Claim alice; Forced 7; Claim bob]) =
  totalAmount (run sample_keccak sample_code random_pool
                   [Claim alice; Forced 7; Claim bob]) +
  forced_total [Claim alice; Forced 7; Claim bob].
Proof.
  split; [reflexivity|]. split; [lia|].
  assert (H0 : 0 <= 100) by lia.
  exact (proj1 (forced_wei_locked sample_keccak sample_code 9 100 2 false random_pool
                  [Claim alice; Forced 7; Claim bob] eq_refl H0)).
Defined.

Lemma funded_pool_drains_witness :
  constructor 9 100 2 false = inr random_pool /\
  0 < 100 <= uint256_max /\ 2 <= uint256_max /\
  (false = true \/ 2 <= 100) /\
  Z.of_nat (length [bob; mkEnv 3 1700000024 424242]) = 2 /\
  NoDup (map msg_sender [bob; mkEnv 3 1700000024 424242]) /\
  Forall (fun e => accepts sample_keccak sample_code e (msg_sender e))
         [bob; mkEnv 3 1700000024 424242] /\
  count (run sample_keccak sample_code random_pool
             (map Claim [bob; mkEnv 3 1700000024 424242])) = 0.
Proof.
  assert (H1 : 0 < 100 <= uint256_max) by (unfold uint256_max; lia).
  assert (H2 : 2 <= uint256_max) by (unfold uint256_max; lia).
  assert (H3 : false = true \/ 2 <= 100) by (right; lia).
  assert (H4 : Z.of_nat (length [bob; mkEnv 3 1700000024 424242]) = 2) by reflexivity.
  assert (H5 : NoDup (map msg_sender [bob; mkEnv 3 1700000024 424242])).
  { simpl. apply NoDup_cons. split; [|apply NoDup_singleton].
    intros Hin. apply list_elem_of_singleton in Hin. discriminate Hin. }
  assert (H6 : Forall (fun e => accepts sample_keccak sample_code e (msg_sender e))
                      [bob; mkEnv 3 1700000024 424242]).
  { repeat constructor; intros s; reflexivity. }
  split; [reflexivity|]. split; [exact H1|]. split; [exact H2|]. split; [exact H3|].
  split; [exact H4|]. split; [exact H5|]. split; [exact H6|].
  apply (funded_pool_drains sample_keccak sample_code 9 100 2 false random_pool
           [bob; mkEnv 3 1700000024 424242] eq_refl H1 H2 H3 H4 H5 H6).
Defined.

(** ** The scenarios of the specification, on the sample world *)

(** Scenario A: 100 wei in 10 equal shares; every claim receives 10. *)
Example scenario_A :
  exists s0,
    constructor 9 100 10 true = inr s0 /\
    payouts (trace (run sample_keccak sample_code s0
                        (map (fun a => Claim (mkEnv a 1700000000 12345))
                             [11; 12; 13; 14; 15; 16; 17; 18; 19; 20]))) =
    [10; 10; 10; 10; 10; 10; 10; 10; 10; 10].
Proof. eexists. split; [reflexivity|]. vm_compute. reflexivity. Qed.

(** Scenario B: 100 wei in 2 random shares; the second claim receives what
    the first one left. *)
Example scenario_B :
  payouts (trace (run sample_keccak sample_code random_pool [Claim alice; Claim bob])) =
  [55; 100 - 55].
Proof. vm_compute. reflexivity. Qed.

(** Scenario D: once both shares are taken, a third caller is rejected and
    the ledger is unchanged. *)
Example scenario_D :
  call sample_keccak sample_code (mkEnv 3 1700000024 424242)
       (run sample_keccak sample_code random_pool [Claim alice; Claim bob]) =
  (run sample_keccak sample_code random_pool [Claim alice; Claim bob],
   Failure PoolExhausted).
Proof. vm_compute. reflexivity. Qed.

(** An account that refuses the payment cannot claim: the whole call is
    rolled back, its mark included. *)
Example refused_payment :
  call sample_keccak sample_code (mkEnv 4 1700000024 424242) random_pool =
  (random_pool, Failure TransferFailed).
Proof. vm_compute. reflexivity. Qed.

End RedPacket.

(** * The front end: the handler of the claim button

    [handleGrab] of the React component [App] reads [totalAmount], sends a
    transaction calling [grabRedPacket], waits for its receipt, looks in the
    logs of the receipt for the [Grabbed] event of the connected account,
    and shows an amount: the amount of that event when it found one, and
    otherwise the difference of [totalAmount] before and after.  Every
    awaited call either resolves or rejects; the handler is a function of
    what these calls return.  The library functions [toLowerCase] and
    [formatEther] are parameters. *)

Module App.

Import RedPacket.

Local Open Scope string_scope.

(** A value thrown by an awaited call, with the two fields the handler
    reads; a field is absent when the value does not have it. *)
Record Thrown : Type := mkThrown {
  shortMessage : option string;
  message : option string
}.

Inductive Await (A : Type) : Type :=
| Resolved (a : A)
| Rejected (e : Thrown).
Arguments Resolved {A} a.
Arguments Rejected {A} e.

(** The arguments of a decoded event, by name; an argument the event does
    not have is absent. *)
Record Args : Type := mkArgs {
  account : option string;
  amount : option Z
}.

(** What decoding a log would return. *)
Record Parsed : Type := mkParsed {
  eventName : string;
  args : option Args
}.

(** A log of a receipt: the account and the amount of a [Grabbed] event. *)
Definition Log : Type := (address * Z)%type.

(** What the awaited calls of one run of the handler return. *)
Record Calls : Type := mkCalls {
  read_before : Await Z;                       (* readContract totalAmount *)
  write_tx : Await unit;                       (* writeContractAsync *)
  wait_receipt : Await (list Log);             (* waitForTransactionReceipt *)
  read_after : Await Z;                        (* readContract totalAmount *)
  refetch : Await unit                         (* Promise.all of the refetches *)
}.

(** The state set by the handler. *)
Record UI : Type := mkUI {
  grabbedAmount : option string;
  statusMsg : string;
  errorMsg : string
}.

(** [amountFromEvent]: [null], [undefined] or a bigint. *)
Inductive Amount : Type :=
| null
| undefined
| bigint (z : Z).

(** Truth value of a string that may be absent: absent and empty are false. *)
Definition truthy (o : option string) : bool :=
  match o with
  | Some s => negb (String.eqb s "")
  | None => false
  end.

(** [e?.shortMessage || e?.message || '交易失败'] *)
Definition error_text (e : Thrown) : string :=
  if truthy (shortMessage e) then default "" (shortMessage e)
  else if truthy (message e) then default "" (message e)
  else "交易失败".

(** [===] on strings that may be [undefined]. *)
Definition same (a b : option string) : bool :=
  match a, b with
  | Some x, Some y => String.eqb x y
  | None, None => true
  | _, _ => false
  end.

(** [publicClient.decodeEventLog({ abi, data, topics })], [None] when the
    call throws.  [publicClient] is the public client of viem that
    [usePublicClient] returns; it has no member [decodeEventLog] (viem
    exports a function of that name, which the component does not import),
    so the call is a call of [undefined] and throws a [TypeError], for
    every log. *)
Definition decodeEventLog (log : Log) : option Parsed := None.

Section HandleGrab.

Variable toLowerCase : string -> string.
Variable formatEther : Z -> string.

(** The loop over [receipt.logs].  A log whose decoding throws is skipped,
    the [catch] of the loop body being empty; so is a matching log without
    arguments, since reading the amount of [undefined] throws inside the
    same [try]. *)
Fixpoint scan (address : option string) (logs : list Log) : Amount :=
  match logs with
  | [] => null
  | log :: rest =>
      match decodeEventLog log with
      | None => scan address rest
      | Some parsed =>
          if String.eqb (eventName parsed) "Grabbed" &&
             same (option_map toLowerCase
                     (match args parsed with Some a => account a | None => None end))
                  (option_map toLowerCase address)
          then match args parsed with
               | Some a => match amount a with Some z => bigint z | None => undefined end
               | None => scan address rest
               end
          else scan address rest
      end
  end.

(** The [catch] block. *)
Definition caught (e : Thrown) (ui : UI) : UI :=
  mkUI (grabbedAmount ui) "进行中" (error_text e).

Definition handleGrab (address : option string) (w : Calls) (ui : UI) : UI :=
  let ui := mkUI (grabbedAmount ui) (statusMsg ui) "" in
  match read_before w with
  | Rejected e => caught e ui
  | Resolved before =>
      match write_tx w with
      | Rejected e => caught e ui
      | Resolved _ =>
          let ui := mkUI (grabbedAmount ui) "交易进行中..." (errorMsg ui) in
          match wait_receipt w with
          | Rejected e => caught e ui
          | Resolved logs =>
              let amountFromEvent := scan address logs in
              let pretty :=
                match amountFromEvent with
                | bigint z =>
                    if negb (z =? 0)%Z then Resolved (formatEther z)
                    else match read_after w with
                         | Resolved after => Resolved (formatEther (before - after))
                         | Rejected e => Rejected e
                         end
                | _ =>
                    match read_after w with
                    | Resolved after => Resolved (formatEther (before - after))
                    | Rejected e => Rejected e
                    end
                end in
              match pretty with
              | Rejected e => caught e ui
              | Resolved pretty =>
                  let ui := mkUI (Some pretty) "领取成功" (errorMsg ui) in
                  match refetch w with
                  | Rejected e => caught e ui
                  | Resolved _ => ui
                  end
              end
          end
      end
  end.

End HandleGrab.

(** ** A sample session *)

(** Stand-ins for the library functions. *)
Definition sample_lower (x : string) : string :=
  if String.eqb x "0xB0B" then "0xb0b" else x.

Definition sample_format (z : Z) : string :=
  if (z =? 45)%Z then "0.000000000000000045"
  else if (z =? 100)%Z then "0.0000000000000001"
  else "another amount".

(** Bob reads the pool of 100 wei; Alice's claim of 55 wei is mined first,
    then Bob's of 45 wei, whose receipt holds his event. *)
Definition sample_calls : Calls :=
  mkCalls (Resolved 100%Z) (Resolved tt)
          (Resolved [(2%Z, 45%Z)])
          (Resolved 0%Z) (Resolved tt).

Section OnChain.

Variable keccak256 : list Z -> Z.
Variable code_at : address -> Code.
Variable toLowerCase : string -> string.
Variable formatEther : Z -> string.

(** The logs of the receipt of the transaction that took the contract from
    [s1] to [s2]. *)
Definition receipt_logs (s1 s2 : State) : list Log :=
  skipn (length (events (trace s1))) (events (trace s2)).

(** ** Facts *)

Lemma error_text_nonempty (e : Thrown) : error_text e <> "".
Proof.
  unfold error_text, truthy.
  destruct (shortMessage e) as [s|]; simpl.
  - destruct (String.eqb s "") eqn:E; simpl.
    + destruct (message e) as [m|]; simpl; [|discriminate].
      destruct (String.eqb m "") eqn:E2; simpl; [discriminate|].
      now apply String.eqb_neq.
    + now apply String.eqb_neq.
  - destruct (message e) as [m|]; simpl; [|discriminate].
    destruct (String.eqb m "") eqn:E2; simpl; [discriminate|].
    now apply String.eqb_neq.
Qed.

Lemma total_paid_run (txs : list Tx) (s : State) :
  totalAmount s - totalAmount (run keccak256 code_at s txs) =
    sum (payouts (trace (run keccak256 code_at s txs))) - sum (payouts (trace s)) /\
  (0 <= totalAmount s - totalAmount (run keccak256 code_at s txs))%Z.
Proof.
  revert s. induction txs as [|tx txs IH]; intros s; simpl; [lia|].
  change (fold_left (exec keccak256 code_at) txs (exec keccak256 code_at s tx))
    with (run keccak256 code_at (exec keccak256 code_at s tx) txs).
  destruct (IH (exec keccak256 code_at s tx)) as [IH1 IH2].
  destruct (exec_cases keccak256 code_at s tx)
    as [E | [(w & _ & _ & E) | (e & p & _ & H)]].
  - rewrite E in *. lia.
  - rewrite E in *. simpl in *. lia.
  - destruct (grab_payout _ _ _ _ _ _ H) as (Hp & _).
    destruct (grab_fields _ _ _ _ _ _ H) as (Ft & _).
    destruct (grab_trace _ _ _ _ _ _ H) as (Tp & _).
    rewrite Tp, sum_app in IH1. simpl in IH1. lia.
Qed.

(** No amount is ever read from the logs. *)
Lemma scan_null (address : option string) (logs : list Log) :
  scan toLowerCase address logs = null.
Proof. induction logs as [|log logs IH]; [reflexivity|exact IH]. Qed.

(** The handler when the first four awaited calls resolve. *)
Lemma handleGrab_resolved
    (address : option string) (w : Calls) (ui : UI) (before after : Z)
    (u : unit) (logs : list Log) :
  read_before w = Resolved before -> write_tx w = Resolved u ->
  wait_receipt w = Resolved logs -> read_after w = Resolved after ->
  handleGrab toLowerCase formatEther address w ui =
  match refetch w with
  | Resolved _ => mkUI (Some (formatEther (before - after))) "领取成功" ""
  | Rejected e => mkUI (Some (formatEther (before - after))) "进行中" (error_text e)
  end.
Proof.
  intros Hb Hw Hr Ha. unfold handleGrab.
  rewrite Hb, Hw, Hr, scan_null, Ha. now destruct (refetch w).
Qed.

(** X10. After a successful claim, with every awaited call resolved, the
    handler shows no error and, as the amount received, [totalAmount] read
    before minus [totalAmount] read after, although the receipt holds the
    event of the claim with the payout: the amount shown is the payout plus
    everything paid to other claimants between the two reads, hence the
    payout only when nobody else claimed in between. *)
Theorem shown_amount
    (s0 : State) (txs1 txs2 : list Tx) (e : Env) (p : Z) (s2 : State)
    (address : option string) (w : Calls) (ui : UI) :
  grabRedPacket keccak256 code_at e (run keccak256 code_at s0 txs1) = Done p s2 ->
  read_before w = Resolved (totalAmount s0) ->
  write_tx w = Resolved tt ->
  wait_receipt w = Resolved (receipt_logs (run keccak256 code_at s0 txs1) s2) ->
  read_after w = Resolved (totalAmount (run keccak256 code_at s2 txs2)) ->
  refetch w = Resolved tt ->
  let s1 := run keccak256 code_at s0 txs1 in
  let s3 := run keccak256 code_at s2 txs2 in
  let ui' := handleGrab toLowerCase formatEther address w ui in
  let others := ((totalAmount s0 - totalAmount s1) + (totalAmount s2 - totalAmount s3))%Z in
  receipt_logs s1 s2 = [(msg_sender e, p)] /\
  (0 <= others)%Z /\
  others = ((sum (payouts (trace s1)) - sum (payouts (trace s0))) +
            (sum (payouts (trace s3)) - sum (payouts (trace s2))))%Z /\
  ui' = mkUI (Some (formatEther (p + others))) "领取成功" "" /\
  (txs1 = [] -> txs2 = [] -> ui' = mkUI (Some (formatEther p)) "领取成功" "").
Proof.
  intros H Hb Hw Hr Ha Hf s1 s3 ui' others.
  destruct (total_paid_run txs1 s0) as [P1 N1].
  destruct (total_paid_run txs2 s2) as [P2 N2].
  fold s1 in P1, N1. fold s3 in P2, N2.
  destruct (grab_fields _ _ _ _ _ _ H) as (Ft & _). fold s1 in Ft.
  destruct (grab_log _ _ _ _ _ _ H) as (He & _). fold s1 in He.
  assert (Hdiff : (totalAmount s0 - totalAmount s3 = p + others)%Z)
    by (unfold others; lia).
  assert (Hui : ui' = mkUI (Some (formatEther (p + others))) "领取成功" "").
  { unfold ui'. fold s1 in Hr. fold s3 in Ha.
    rewrite (handleGrab_resolved address w ui _ _ _ _ Hb Hw Hr Ha), Hf, Hdiff.
    reflexivity. }
  split.
  { unfold receipt_logs. rewrite He, skipn_app, Nat.sub_diag, skipn_all. reflexivity. }
  split; [unfold others; lia|]. split; [unfold others; lia|].
  split; [exact Hui|].
  intros E1 E2. rewrite Hui.
  assert (others = 0%Z) as -> by (unfold others, s1, s3; rewrite E1, E2; simpl; lia).
  now rewrite Z.add_0_r.
Qed.

(** X11. What the handler ends with, by the first awaited call that is
    rejected.  When the read before, the transaction, the wait for the
    receipt or the read after is rejected, the status is reset, the amount
    shown before is kept, and the error shown is that of the value thrown
    by that call.  When only the final refetch is rejected, the status is
    reset and its error shown although the new amount is set.  When none is
    rejected, the status is the success text, no error is shown and the
    amount is [totalAmount] before minus after.  The error shown for a
    thrown value is its short message, else its message, else the default
    text, and is never empty. *)
Theorem handleGrab_outcome
    (address : option string) (w : Calls) (ui : UI) :
  let ui' := handleGrab toLowerCase formatEther address w ui in
  let failed e := mkUI (grabbedAmount ui) "进行中" (error_text e) in
  (forall e, read_before w = Rejected e -> ui' = failed e) /\
  (forall before e,
     read_before w = Resolved before -> write_tx w = Rejected e -> ui' = failed e) /\
  (forall before e,
     read_before w = Resolved before -> write_tx w = Resolved tt ->
     wait_receipt w = Rejected e -> ui' = failed e) /\
  (forall before logs e,
     read_before w = Resolved before -> write_tx w = Resolved tt ->
     wait_receipt w = Resolved logs -> read_after w = Rejected e -> ui' = failed e) /\
  (forall before logs after e,
     read_before w = Resolved before -> write_tx w = Resolved tt ->
     wait_receipt w = Resolved logs -> read_after w = Resolved after ->
     refetch w = Rejected e ->
     ui' = mkUI (Some (formatEther (before - after))) "进行中" (error_text e)) /\
  (forall before logs after,
     read_before w = Resolved before -> write_tx w = Resolved tt ->
     wait_receipt w = Resolved logs -> read_after w = Resolved after ->
     refetch w = Resolved tt ->
     ui' = mkUI (Some (formatEther (before - after))) "领取成功" "") /\
  (forall e,
     error_text e <> "" /\
     (forall m, shortMessage e = Some m -> m <> "" -> error_text e = m) /\
     (forall m, truthy (shortMessage e) = false -> message e = Some m -> m <> "" ->
                error_text e = m) /\
     (truthy (shortMessage e) = false -> truthy (message e) = false ->
      error_text e = "交易失败")).
Proof.
  intros ui' failed. unfold ui', failed.
  split. { intros e Hb. unfold handleGrab. now rewrite Hb. }
  split. { intros before e Hb Hw. unfold handleGrab. now rewrite Hb, Hw. }
  split. { intros before e Hb Hw Hr. unfold handleGrab. now rewrite Hb, Hw, Hr. }
  split.
  { intros before logs e Hb Hw Hr Ha. unfold handleGrab.
    now rewrite Hb, Hw, Hr, scan_null, Ha. }
  split.
  { intros before logs after e Hb Hw Hr Ha Hf.
    now rewrite (handleGrab_resolved address w ui _ _ _ _ Hb Hw Hr Ha), Hf. }
  split.
  { intros before logs after Hb Hw Hr Ha Hf.
    now rewrite (handleGrab_resolved address w ui _ _ _ _ Hb Hw Hr Ha), Hf. }
  intros e. split; [apply error_text_nonempty|]. unfold error_text.
  split; [|split].
  - intros m Hs Hm. rewrite Hs. simpl.
    apply String.eqb_neq in Hm. now rewrite Hm.
  - intros m Hs Hmsg Hm. rewrite Hs, Hmsg. simpl.
    apply String.eqb_neq in Hm. now rewrite Hm.
  - intros Hs Hm. now rewrite Hs, Hm.
Qed.

End OnChain.

Lemma shown_amount_witness :
  grabRedPacket sample_keccak sample_code bob
    (run sample_keccak sample_code random_pool [Claim alice]) =
    Done 45%Z (exec sample_keccak sample_code
                 (run sample_keccak sample_code random_pool [Claim alice]) (Claim bob)) /\
  wait_receipt sample_calls = Resolved [(msg_sender bob, 45%Z)] /\
  handleGrab sample_lower sample_format (Some "0xb0b") sample_calls
    (mkUI None "进行中" "") =
  mkUI (Some "0.0000000000000001") "领取成功" "".
Proof.
  assert (H4 : grabRedPacket sample_keccak sample_code bob
                 (run sample_keccak sample_code random_pool [Claim alice]) =
               Done 45%Z (exec sample_keccak sample_code
                            (run sample_keccak sample_code random_pool [Claim alice])
                            (Claim bob)))
    by (vm_compute; reflexivity).
  split; [exact H4|]. split; [reflexivity|].
  assert (Hr : wait_receipt sample_calls =
               Resolved (receipt_logs
                           (run sample_keccak sample_code random_pool [Claim alice])
                           (exec sample_keccak sample_code
                              (run sample_keccak sample_code random_pool [Claim alice])
                              (Claim bob))))
    by (vm_compute; reflexivity).
  assert (Ha : read_after sample_calls =
               Resolved (totalAmount
                           (run sample_keccak sample_code
                              (exec sample_keccak sample_code
                                 (run sample_keccak sample_code random_pool [Claim alice])
                                 (Claim bob)) [])))
    by (vm_compute; reflexivity).
  pose proof (shown_amount sample_keccak sample_code sample_lower sample_format
                random_pool [Claim alice] [] bob 45%Z _
                (Some "0xb0b") sample_calls (mkUI None "进行中" "")
                H4 eq_refl eq_refl Hr Ha eq_refl) as H.
  cbv zeta in H. destruct H as (_ & _ & _ & Hshown & _).
  exact Hshown.
Defined.

End App.

(** * The error class of the ox library

    [BaseError] computes its fields from the short message and the options
    it is built with, inheriting the details and the documentation path of
    its cause; [walk] follows the chain of causes.  An error is a
    [BaseError] or another [Error]; a chain of causes is finite.  The
    library version returned by [getVersion] is a parameter. *)

Module Errors.

Local Open Scope string_scope.

(** The fields of an instance of [BaseError].  [details] is [undefined] when
    neither the cause nor the options give one. *)
Record BaseFields : Type := mkBase {
  shortMessage : string;
  details : option string;
  docs : string;
  docsPath : option string;
  version : string;
  message : string
}.

(** The fields read on another [Error]: its message, and its [details]
    property when it has one that is a string. *)
Record PlainFields : Type := mkPlain {
  plain_message : string;
  plain_details : option string
}.

Inductive Err : Type :=
| BaseError (f : BaseFields) (cause : option Err)
| OtherError (f : PlainFields) (cause : option Err).

(** [BaseError.Options] *)
Module Options.
Record t : Type := mk {
  cause : option Err;
  details : option string;
  docsOrigin : option string;
  docsPath : option string;
  metaMessages : option (list (option string));
  version : option string
}.
End Options.

Definition cause (e : Err) : option Err :=
  match e with
  | BaseError _ c => c
  | OtherError _ c => c
  end.

(** [e instanceof BaseError], for a cause that may be absent. *)
Definition instanceof_BaseError (c : option Err) : bool :=
  match c with
  | Some (BaseError _ _) => true
  | _ => false
  end.

(** [c.details] when it is a string. *)
Definition details_of (c : option Err) : option string :=
  match c with
  | Some (BaseError f _) => details f
  | Some (OtherError f _) => plain_details f
  | None => None
  end.

Definition shortMessage_of (c : option Err) : option string :=
  match c with
  | Some (BaseError f _) => Some (shortMessage f)
  | _ => None
  end.

Definition docsPath_of (c : option Err) : option string :=
  match c with
  | Some (BaseError f _) => docsPath f
  | _ => None
  end.

(** [e.docs] of a [BaseError]. *)
Definition docs_of (e : Err) : option string :=
  match e with
  | BaseError f _ => Some (docs f)
  | OtherError _ _ => None
  end.

Definition message_of (c : option Err) : option string :=
  match c with
  | Some (BaseError f _) => Some (message f)
  | Some (OtherError f _) => Some (plain_message f)
  | None => None
  end.

(** Truth value of a string that may be [undefined]. *)
Definition truthy (o : option string) : bool :=
  match o with
  | Some s => negb (String.eqb s "")
  | None => false
  end.

Definition newline : string := String (Ascii.ascii_of_nat 10) EmptyString.

(** [.filter((x) => typeof x === 'string')] *)
Definition strings (l : list (option string)) : list string :=
  omap (fun x => x) l.

(** ** Sample errors *)

(** A revert of the contract as another library reports it, two wrappers,
    and an error with a documentation path. *)
Definition sample_revert : Err :=
  OtherError (mkPlain "execution reverted" (Some "Already grabbed")) None.

Definition sample_layers : list (string * Options.t) :=
  [("Call failed.", Options.mk None (Some "ignored") None None None None);
   ("Transaction failed.", Options.mk None None None (Some "/other") None None)].

Definition sample_documented : BaseFields :=
  mkBase "Inner." None "https://oxlib.sh/errors" (Some "/errors") "ox@0.1.1" "Inner.".

Section BaseError.

(** [getVersion()] *)
Variable getVersion : string.

(** [new BaseError(shortMessage, options)] *)
Definition new (shortMessage : string) (options : Options.t) : Err :=
  let c := Options.cause options in
  let details : option string :=
    if instanceof_BaseError c && truthy (details_of c) then details_of c
    else if instanceof_BaseError c && truthy (shortMessage_of c) then shortMessage_of c
    else if match details_of c with Some _ => true | None => false end then details_of c
    else if truthy (message_of c) then message_of c
    else Options.details options in
  let docsPath : option string :=
    if instanceof_BaseError c
    then (if truthy (docsPath_of c) then docsPath_of c else Options.docsPath options)
    else Options.docsPath options in
  let docsBaseUrl := default "https://oxlib.sh" (Options.docsOrigin options) in
  let docs := String.append docsBaseUrl (default "" docsPath) in
  let message :=
    String.concat newline
      (strings
         ([Some (if truthy (Some shortMessage) then shortMessage
                 else "An error occurred.")] ++
          (match Options.metaMessages options with
           | Some metaMessages => Some "" :: metaMessages
           | None => []
           end) ++
          (if truthy details || truthy docsPath
           then [Some "";
                 if truthy details
                 then Some (String.append "Details: " (default "" details))
                 else None;
                 if truthy docsPath
                 then Some (String.append "See: " docs)
                 else None]
           else []) ++
          (if truthy (Options.version options)
           then [Some (String.append "Version: " (default "" (Options.version options)))]
           else []))) in
  BaseError
    (mkBase shortMessage details docs docsPath
            (default (String.append "ox@" getVersion) (Options.version options))
            message)
    c.

(** [walk(err, fn)]; [fn] is absent in [walk()], and the result [None] is
    [null]. *)
Fixpoint walk (err : Err) (fn : option (Err -> bool)) : option Err :=
  if match fn with Some f => f err | None => false end then Some err
  else
    match err with
    | BaseError _ (Some c) | OtherError _ (Some c) => walk c fn
    | _ => match fn with Some _ => None | None => Some err end
    end.

(** The chain of causes of an error, the error itself first. *)
Fixpoint chain (err : Err) : list Err :=
  err :: match err with
         | BaseError _ (Some c) | OtherError _ (Some c) => chain c
         | _ => []
         end.

(** An error wrapped in successive [BaseError]s, the innermost layer first,
    each built with its own short message and options and the error built
    so far as its cause. *)
Definition with_cause (c : Err) (o : Options.t) : Options.t :=
  Options.mk (Some c) (Options.details o) (Options.docsOrigin o)
             (Options.docsPath o) (Options.metaMessages o) (Options.version o).

Definition wrap (inner : Err) (layers : list (string * Options.t)) : Err :=
  fold_left (fun c layer => new (fst layer) (with_cause c (snd layer))) layers inner.

(** What the front end shows for a thrown [BaseError]. *)
Definition thrown (e : Err) : App.Thrown :=
  App.mkThrown (shortMessage_of (Some e)) (message_of (Some e)).

(** ** Facts *)

Lemma append_nonempty (a b : string) : a <> "" -> String.append a b <> "".
Proof. destruct a; [congruence|discriminate]. Qed.

Lemma append_empty_r (a : string) : String.append a "" = a.
Proof.
  induction a as [|c a IH]; [reflexivity|].
  change (String c (String.append a "") = String c a). now rewrite IH.
Qed.

Lemma prefix_append (a b : string) : String.prefix a (String.append a b) = true.
Proof.
  induction a as [|c a IH]; simpl; [now destruct b|].
  destruct (Ascii.ascii_dec c c); [exact IH|congruence].
Qed.

Lemma concat_cons (sep x : string) (l : list string) :
  String.concat sep (x :: l) =
  match l with
  | [] => x
  | _ :: _ => String.append x (String.append sep (String.concat sep l))
  end.
Proof. destruct l; reflexivity. Qed.

Lemma truthy_nonempty (s : string) : truthy (Some s) = true <-> s <> "".
Proof.
  unfold truthy. rewrite negb_true_iff. split.
  - intros H. now apply String.eqb_neq.
  - intros H. now apply String.eqb_neq.
Qed.

(** X12. [walk()] never returns [null]: it returns the last error of the
    chain of causes, the one that has no cause. *)
Theorem walk_root (err : Err) :
  exists root,
    walk err None = Some root /\
    cause root = None /\
    last (chain err) = Some root.
Proof.
  revert err. fix IH 1. intros [f [c|] | f [c|]]; simpl.
  - destruct (IH c) as (root & Hw & Hc & Hl). exists root.
    split; [exact Hw|]. split; [exact Hc|].
    destruct c; simpl in *; exact Hl.
  - eexists. repeat split.
  - destruct (IH c) as (root & Hw & Hc & Hl). exists root.
    split; [exact Hw|]. split; [exact Hc|].
    destruct c; simpl in *; exact Hl.
  - eexists. repeat split.
Qed.

(** X13. [walk(fn)] returns the first error of the chain of causes, from
    the error itself inwards, on which [fn] holds, and [null] exactly when
    [fn] holds on none of them. *)
Theorem walk_first (fn : Err -> bool) (err : Err) :
  walk err (Some fn) = List.find fn (chain err) /\
  (walk err (Some fn) = None <-> Forall (fun e => fn e = false) (chain err)).
Proof.
  assert (H : forall e, walk e (Some fn) = List.find fn (chain e)).
  { fix IH 1. intros [f [c|] | f [c|]]; simpl;
      match goal with |- context [fn ?x] => destruct (fn x) end;
      try reflexivity; apply IH. }
  split; [apply H|]. rewrite H. split.
  - intros Hnone. rewrite Forall_forall. intros e He.
    apply list_elem_of_In in He.
    now apply (find_none fn (chain err) Hnone).
  - intros Hall. induction (chain err) as [|e l IH]; simpl; [reflexivity|].
    apply Forall_cons in Hall. destruct Hall as [He Hl]. rewrite He. now apply IH.
Qed.

Lemma new_fields (m : string) (o : Options.t) :
  exists f, new m o = BaseError f (Options.cause o) /\ shortMessage f = m.
Proof. unfold new. eexists. split; reflexivity. Qed.

(** X14. A [BaseError] has the cause it was given, so wrapping an error in
    any number of [BaseError]s adds that many errors in front of its chain
    of causes and keeps its root cause: [walk()] on the wrapped error
    returns what it returns on the error. *)
Theorem wrap_keeps_root (inner : Err) (layers : list (string * Options.t)) :
  walk (wrap inner layers) None = walk inner None /\
  length (chain (wrap inner layers)) = (length layers + length (chain inner))%nat /\
  (forall m o, cause (new m o) = Options.cause o).
Proof.
  split; [|split; [|reflexivity]].
  - revert inner. induction layers as [|[m o] layers IH]; intros inner;
      [reflexivity|].
    change (wrap inner ((m, o) :: layers))
      with (wrap (new m (with_cause inner o)) layers).
    rewrite IH. reflexivity.
  - revert inner. induction layers as [|[m o] layers IH]; intros inner;
      [reflexivity|].
    change (wrap inner ((m, o) :: layers))
      with (wrap (new m (with_cause inner o)) layers).
    rewrite IH. simpl. lia.
Qed.

(** X15. The details of an error that are a non-empty string are inherited
    unchanged through any number of wrapping [BaseError]s, whatever details
    the options of the wrappers give. *)
Theorem details_inherited
    (inner : Err) (layers : list (string * Options.t)) (d : string) :
  details_of (Some inner) = Some d ->
  d <> "" ->
  details_of (Some (wrap inner layers)) = Some d.
Proof.
  intros Hd Hne. revert inner Hd.
  induction layers as [|[m o] layers IH]; intros inner Hd; [exact Hd|].
  change (wrap inner ((m, o) :: layers))
    with (wrap (new m (with_cause inner o)) layers).
  apply IH.
  assert (Ht : truthy (Some d) = true) by now apply truthy_nonempty.
  destruct inner as [f c|f c]; simpl in Hd; unfold new; simpl; rewrite Hd.
  - rewrite Ht. reflexivity.
  - reflexivity.
Qed.

(** X16. The documentation path of a [BaseError], when it is a non-empty
    string, is inherited unchanged through any number of wrapping
    [BaseError]s, and the [docs] of a wrapper is its own origin (the default
    one when it gives none) followed by that path. *)
Theorem docsPath_inherited
    (f : BaseFields) (c : option Err) (layers : list (string * Options.t))
    (path : string) :
  docsPath f = Some path ->
  path <> "" ->
  docsPath_of (Some (wrap (BaseError f c) layers)) = Some path /\
  (forall m o,
     docs_of (new m (with_cause (wrap (BaseError f c) layers) o)) =
     Some (String.append (default "https://oxlib.sh" (Options.docsOrigin o)) path)).
Proof.
  intros Hp Hne.
  assert (Ht : truthy (Some path) = true) by now apply truthy_nonempty.
  assert (H : forall inner, instanceof_BaseError (Some inner) = true ->
            docsPath_of (Some inner) = Some path ->
            instanceof_BaseError (Some (wrap inner layers)) = true /\
            docsPath_of (Some (wrap inner layers)) = Some path).
  { induction layers as [|[m o] layers IH]; intros inner Hi Hd; [now split|].
    change (wrap inner ((m, o) :: layers))
      with (wrap (new m (with_cause inner o)) layers).
    apply IH; [reflexivity|]. unfold new. simpl. simpl in Hi. rewrite Hi.
    simpl in Hd. rewrite Hd, Ht. reflexivity. }
  destruct (H (BaseError f c) eq_refl Hp) as [Hi Hd].
  split; [exact Hd|]. intros m o. unfold new, docs_of. simpl.
  simpl in Hi, Hd. rewrite Hi, Hd, Ht. reflexivity.
Qed.

(** X17. The message of a [BaseError] is never empty and begins with its
    short message, or with the default line when the short message is
    empty; for a thrown [BaseError] the front end shows the short message,
    or the whole message when the short message is empty: in both cases a
    text that begins with that first line. *)
Theorem message_shape (m : string) (o : Options.t) :
  let first := if truthy (Some m) then m else "An error occurred." in
  let msg := default "" (message_of (Some (new m o))) in
  msg <> "" /\
  String.prefix first msg = true /\
  App.error_text (thrown (new m o)) = (if truthy (Some m) then m else msg) /\
  String.prefix first (App.error_text (thrown (new m o))) = true.
Proof.
  intros first msg.
  assert (Hfirst : first <> "").
  { unfold first. destruct (truthy (Some m)) eqn:E; [|discriminate].
    now apply truthy_nonempty. }
  assert (Hmsg : exists rest, msg = String.append first rest).
  { unfold msg, new, message_of. cbn [message default].
    unfold strings. cbn [app omap list_omap]. fold first.
    rewrite concat_cons.
    match goal with
    | |- context [match ?l with [] => _ | _ :: _ => _ end] => destruct l
    end.
    - exists "". symmetry. apply append_empty_r.
    - eexists. reflexivity. }
  destruct Hmsg as [rest Hrest].
  assert (Hne : msg <> "") by (rewrite Hrest; now apply append_nonempty).
  assert (Hthrown : thrown (new m o) = App.mkThrown (Some m) (Some msg))
    by reflexivity.
  clearbody msg. rewrite Hthrown. unfold App.error_text.
  cbn [App.shortMessage App.message].
  change (App.truthy (Some m)) with (truthy (Some m)).
  change (App.truthy (Some msg)) with (truthy (Some msg)).
  assert (Hm : truthy (Some msg) = true) by now apply truthy_nonempty.
  rewrite Hm.
  split; [exact Hne|]. split; [rewrite Hrest; apply prefix_append|].
  destruct (truthy (Some m)) eqn:E; cbn [default].
  - split; [reflexivity|]. unfold first. rewrite <- (append_empty_r m) at 2.
    apply prefix_append.
  - split; [reflexivity|]. rewrite Hrest. apply prefix_append.
Qed.

End BaseError.

Lemma details_inherited_witness :
  details_of (Some sample_revert) = Some "Already grabbed" /\
  "Already grabbed" <> "" /\
  details_of (Some (wrap "0.1.1" sample_revert sample_layers)) = Some "Already grabbed".
Proof.
  assert (H : "Already grabbed" <> "") by discriminate.
  split; [reflexivity|]. split; [exact H|].
  apply (details_inherited "0.1.1" sample_revert sample_layers "Already grabbed"
           eq_refl H).
Defined.

Lemma docsPath_inherited_witness :
  docsPath sample_documented = Some "/errors" /\
  "/errors" <> "" /\
  docsPath_of (Some (wrap "0.1.1" (BaseError sample_documented None) sample_layers)) =
    Some "/errors".
Proof.
  assert (H : "/errors" <> "") by discriminate.
  split; [reflexivity|]. split; [exact H|].
  apply (docsPath_inherited "0.1.1" sample_documented None sample_layers "/errors"
           eq_refl H).
Defined.

End Errors.

(** * ERC-8021 attribution of the ox library

    [toDataSuffix] encodes an attribution as a suffix of calldata and
    [fromData] reads one back from the end of data.  A [Hex] value is held
    by its bytes, so that the case of its digits is not seen, and a string
    by its UTF-8 bytes.  The functions of [Hex] are given on bytes as the
    library has them: [fromNumber] with a size throws on a number that
    does not fit, and [slice] takes its indices as
    [String.prototype.slice] does, from the end when negative and clamped
    to the value.  The text decoding of [Hex.toString] is a parameter,
    known on ASCII bytes. *)

Module Attribution.

Import Ascii.
Local Open Scope Z_scope.

(** A [Hex] value, by its bytes. *)
Abbreviation Hex := (list Byte.byte).

(** An attribution object.  [codeRegistryAddress] is [None] when the object
    has no such key, [Some None] when it has the key with the value
    [undefined], which the type allows, and [Some (Some a)] when the value
    is the address [a]; [id] is optional. *)
Record Attribution : Type := mk {
  codes : list string;
  codeRegistryAddress : option (option Hex);
  id : option Z
}.

(** What [toDataSuffix] can throw: the error of [Hex.fromNumber] on a number
    that does not fit, and the [TypeError] of a method call on [undefined]. *)
Inductive Thrown : Type :=
| IntegerOutOfRangeError
| TypeError.

#[local] Instance byte_eq_dec : EqDecision Byte.byte := Byte.byte_eq_dec.

(** ** The functions of [Hex] used here *)

(** [Hex.size] *)
Definition size (value : Hex) : Z := Z.of_nat (length value).

(** [Hex.fromString]: the UTF-8 bytes of a string, which is held by them. *)
Definition fromString (value : string) : Hex := list_byte_of_string value.

(** [Hex.fromNumber(value, { size: 1 })]; [None] when it throws, the value
    not fitting in one byte. *)
Definition fromNumber (value : Z) : option Hex :=
  if (value <? 0) || (255 <? value) then None
  else option_map (fun b => [b]) (Byte.of_N (Z.to_N value)).

(** [Hex.toNumber] *)
Definition toNumber (value : Hex) : Z :=
  fold_left (fun acc b => acc * 256 + Z.of_N (Byte.to_N b)) value 0.

(** [Hex.concat] *)
Definition concat (values : list Hex) : Hex := List.concat values.

(** An index of [String.prototype.slice] on a string of length [len]. *)
Definition index (len i : Z) : Z :=
  if i <? 0 then Z.max (len + i) 0 else Z.min i len.

(** [Hex.slice(value, start, end)], for a [start] that is not positive
    (the library's check on [start] is on positive ones). *)
Definition slice (value : Hex) (start : Z) (end_ : option Z) : Hex :=
  let len := size value in
  let from := index len start in
  let to := match end_ with Some e => index len e | None => len end in
  firstn (Z.to_nat (to - from)) (skipn (Z.to_nat from) value).

(** [s.split(',')] *)
Fixpoint split (s : string) : list string :=
  match s with
  | EmptyString => [EmptyString]
  | String c rest =>
      let pieces := split rest in
      if Ascii.eqb c ","
      then EmptyString :: pieces
      else String c (hd EmptyString pieces) :: tl pieces
  end.

(** Bytes of ASCII text. *)
Definition is_ascii (value : Hex) : bool :=
  forallb (fun b => (Byte.to_N b <? 128)%N) value.

(** A code without a comma. *)
Fixpoint no_comma (s : string) : bool :=
  match s with
  | EmptyString => true
  | String c rest => negb (Ascii.eqb c ",") && no_comma rest
  end.

(** ** Attribution *)

Definition ercSuffix : Hex :=
  [Byte.x80; Byte.x21; Byte.x80; Byte.x21; Byte.x80; Byte.x21; Byte.x80; Byte.x21;
   Byte.x80; Byte.x21; Byte.x80; Byte.x21; Byte.x80; Byte.x21; Byte.x80; Byte.x21].

Definition ercSuffixSize : Z := size ercSuffix.

(** [getSchemaId]: [in] tests the key, whatever its value. *)
Definition getSchemaId (attribution : Attribution) : Z :=
  match codeRegistryAddress attribution with
  | Some _ => 1
  | None => 0
  end.

(** [toDataSuffix]; [inl] when it throws.  The lower case taken of the
    address does not change its bytes; taking it of [undefined] throws. *)
Definition toDataSuffix (attribution : Attribution) : Thrown + Hex :=
  let codesHex := fromString (String.concat "," (codes attribution)) in
  let codesLength := size codesHex in
  match fromNumber codesLength with
  | None => inl IntegerOutOfRangeError
  | Some codesLengthHex =>
      let schemaId := getSchemaId attribution in
      match fromNumber schemaId with
      | None => inl IntegerOutOfRangeError
      | Some schemaIdHex =>
          if schemaId =? 1
          then match codeRegistryAddress attribution with
               | Some (Some address) =>
                   inr (concat [address; codesHex; codesLengthHex; schemaIdHex;
                                ercSuffix])
               | _ => inl TypeError
               end
          else inr (concat [codesHex; codesLengthHex; schemaIdHex; ercSuffix])
      end
  end.

(** The calldata, the attributions and the data of the examples. *)
Definition sample_calldata : Hex := [Byte.xdd; Byte.xdd; Byte.xdd; Byte.xdd].

Definition sample_attribution : Attribution := mk ["baseapp"%string; "morpho"%string] None None.

Definition sample_suffix : Hex :=
  [Byte.x62; Byte.x61; Byte.x73; Byte.x65; Byte.x61; Byte.x70; Byte.x70; Byte.x2c;
   Byte.x6d; Byte.x6f; Byte.x72; Byte.x70; Byte.x68; Byte.x6f; Byte.x0e; Byte.x00]
  ++ ercSuffix.

Definition sample_data : Hex :=
  sample_calldata ++
  [Byte.x62; Byte.x61; Byte.x73; Byte.x65; Byte.x61; Byte.x70; Byte.x70; Byte.x07; Byte.x00]
  ++ ercSuffix.

Definition sample_registry : Hex := repeat Byte.xcc 20.

Definition sample_custom : Attribution :=
  mk ["baseapp"%string; "morpho"%string] (Some (Some sample_registry)) None.

(** An attribution of schema 0 by its type, with the key of the address. *)
Definition sample_undefined : Attribution :=
  mk ["baseapp"%string] (Some None) None.

Definition sample_custom_suffix : Hex :=
  sample_registry ++
  [Byte.x62; Byte.x61; Byte.x73; Byte.x65; Byte.x61; Byte.x70; Byte.x70; Byte.x2c;
   Byte.x6d; Byte.x6f; Byte.x72; Byte.x70; Byte.x68; Byte.x6f; Byte.x0e; Byte.x01]
  ++ ercSuffix.

(** The data of the second example of [fromData], with the address after
    the length byte. *)
Definition sample_misplaced : Hex :=
  sample_calldata ++
  [Byte.x62; Byte.x61; Byte.x73; Byte.x65; Byte.x61; Byte.x70; Byte.x70; Byte.x2c;
   Byte.x6d; Byte.x6f; Byte.x72; Byte.x70; Byte.x68; Byte.x6f; Byte.x0e]
  ++ sample_registry ++ [Byte.x01] ++ ercSuffix.

(** The codes read back from the suffix made of [codes]. *)
Definition read_back (codes : list string) : list string :=
  match codes with
  | [EmptyString] => []
  | _ => codes
  end.

(** The size the registry address takes in the data. *)
Definition registrySize (attribution : Attribution) : Z :=
  match codeRegistryAddress attribution with
  | Some _ => 20
  | None => 0
  end.

(** The codes length that [data] declares, and the bytes of its codes. *)
Definition codesLength (data : Hex) : Z :=
  toNumber (slice data (- ercSuffixSize - 2) (Some (- ercSuffixSize - 1))).

Definition codesHex (data : Hex) : Hex :=
  slice data (- ercSuffixSize - 2 - codesLength data) (Some (- ercSuffixSize - 2)).

Section FromData.

(** [Hex.toString] decodes with a [TextDecoder], which gives ASCII text
    back as it is. *)
Variable toString : Hex -> string.
Hypothesis toString_ascii :
  forall value, is_ascii value = true -> toString value = string_of_list_byte value.

(** [fromData]; [None] is [undefined]. *)
Definition fromData (data : Hex) : option Attribution :=
  let minSize := ercSuffixSize + 1 + 1 in
  if size data <? minSize then None
  else
    let suffix := slice data (- ercSuffixSize) None in
    if negb (bool_decide (suffix = ercSuffix)) then None
    else
      let schemaIdHex := slice data (- ercSuffixSize - 1) (Some (- ercSuffixSize)) in
      let schemaId := toNumber schemaIdHex in
      if schemaId =? 0 then
        let codesLengthHex :=
          slice data (- ercSuffixSize - 2) (Some (- ercSuffixSize - 1)) in
        let codesLength := toNumber codesLengthHex in
        let codesStart := - ercSuffixSize - 2 - codesLength in
        let codesEnd := - ercSuffixSize - 2 in
        let codesHex := slice data codesStart (Some codesEnd) in
        let codesString := toString codesHex in
        let codes :=
          if 0 <? Z.of_nat (String.length codesString) then split codesString else [] in
        Some (mk codes None (Some 0))
      else if schemaId =? 1 then
        let codesLengthHex :=
          slice data (- ercSuffixSize - 2) (Some (- ercSuffixSize - 1)) in
        let codesLength := toNumber codesLengthHex in
        let codesStart := - ercSuffixSize - 2 - codesLength in
        let codesEnd := - ercSuffixSize - 2 in
        let codesHex := slice data codesStart (Some codesEnd) in
        let codesString := toString codesHex in
        let codes :=
          if 0 <? Z.of_nat (String.length codesString) then split codesString else [] in
        let registryStart := codesStart - 20 in
        let codeRegistryAddress := slice data registryStart (Some codesStart) in
        Some (mk codes (Some (Some codeRegistryAddress)) (Some 1))
      else None.


(** ** Bytes and slices *)

Lemma size_app (a b : Hex) : size (a ++ b) = size a + size b.
Proof. unfold size. rewrite length_app. lia. Qed.

Lemma size_nonneg (a : Hex) : 0 <= size a.
Proof. unfold size. lia. Qed.

Lemma slice_app (pre mid post : Hex) (start end_ : Z) :
  0 < size post -> start = - (size mid + size post) -> end_ = - size post ->
  slice (pre ++ mid ++ post) start (Some end_) = mid.
Proof.
  intros Hp -> ->. unfold slice, index. rewrite !size_app.
  pose proof (size_nonneg pre). pose proof (size_nonneg mid).
  destruct (Z.ltb_spec (- (size mid + size post)) 0); [|lia].
  destruct (Z.ltb_spec (- size post) 0); [|lia].
  replace (Z.to_nat (Z.max _ 0 - Z.max _ 0)) with (length mid) by (unfold size in *; lia).
  replace (Z.to_nat (Z.max _ 0)) with (length pre) by (unfold size in *; lia).
  rewrite drop_app_length. apply take_app_length.
Qed.

Lemma slice_app_end (pre post : Hex) (start : Z) :
  0 < size post -> start = - size post -> slice (pre ++ post) start None = post.
Proof.
  intros Hp ->. unfold slice, index. rewrite !size_app.
  pose proof (size_nonneg pre).
  destruct (Z.ltb_spec (- size post) 0); [|lia].
  replace (Z.to_nat (Z.max _ 0)) with (length pre) by (unfold size in *; lia).
  rewrite drop_app_length. apply firstn_all2. unfold size in *. lia.
Qed.

Lemma concat2 (a b : Hex) : concat [a; b] = a ++ b.
Proof. unfold concat. simpl. now rewrite app_nil_r. Qed.

Lemma concat4 (a b c d : Hex) : concat [a; b; c; d] = a ++ b ++ c ++ d.
Proof. unfold concat. simpl. now rewrite app_nil_r. Qed.

Lemma concat5 (a b c d e : Hex) : concat [a; b; c; d; e] = a ++ b ++ c ++ d ++ e.
Proof. unfold concat. simpl. now rewrite app_nil_r. Qed.

Lemma toNumber_byte (b : Byte.byte) : toNumber [b] = Z.of_N (Byte.to_N b).
Proof. reflexivity. Qed.

Lemma fromNumber_Some (n : Z) (h : Hex) :
  fromNumber n = Some h -> exists b, h = [b] /\ Z.of_N (Byte.to_N b) = n.
Proof.
  unfold fromNumber. destruct (Z.ltb_spec n 0); [discriminate|].
  destruct (Z.ltb_spec 255 n); [discriminate|]. simpl.
  destruct (Byte.of_N (Z.to_N n)) as [b|] eqn:E; [|discriminate].
  intros [= <-]. exists b. split; [reflexivity|].
  apply Byte.to_of_N in E. lia.
Qed.

Lemma fromNumber_byte (b : Byte.byte) : fromNumber (Z.of_N (Byte.to_N b)) = Some [b].
Proof.
  unfold fromNumber. pose proof (Byte.to_N_bounded b).
  destruct (Z.ltb_spec (Z.of_N (Byte.to_N b)) 0); [lia|].
  destruct (Z.ltb_spec 255 (Z.of_N (Byte.to_N b))); [lia|]. simpl.
  rewrite N2Z.id, Byte.of_to_N. reflexivity.
Qed.

Lemma fromNumber_None (n : Z) : fromNumber n = None <-> n < 0 \/ 255 < n.
Proof.
  unfold fromNumber. destruct (Z.ltb_spec n 0); [simpl; split; auto|].
  destruct (Z.ltb_spec 255 n); [simpl; split; auto|]. simpl.
  destruct (Byte.of_N (Z.to_N n)) as [b|] eqn:E.
  - simpl. split; [discriminate|lia].
  - apply Byte.of_N_None_iff in E. lia.
Qed.

Lemma byte_of_number (b : Byte.byte) (n : N) (c : Byte.byte) :
  Byte.of_N n = Some c -> Z.of_N (Byte.to_N b) = Z.of_N n -> b = c.
Proof.
  intros Hc Hb. apply N2Z.inj in Hb.
  pose proof (Byte.of_to_N b) as E. rewrite Hb, Hc in E. now injection E.
Qed.

(** ** Text *)

Lemma append_String (c : ascii) (a b : string) :
  String.append (String c a) b = String c (String.append a b).
Proof. reflexivity. Qed.

Lemma fromString_String (c : ascii) (s : string) :
  fromString (String c s) = byte_of_ascii c :: fromString s.
Proof. reflexivity. Qed.

Lemma fromString_append (a b : string) :
  fromString (String.append a b) = fromString a ++ fromString b.
Proof.
  induction a as [|c a IH]; [reflexivity|].
  rewrite append_String, !fromString_String, IH. reflexivity.
Qed.

Lemma is_ascii_app (a b : Hex) : is_ascii (a ++ b) = is_ascii a && is_ascii b.
Proof. apply forallb_app. Qed.

Lemma join_cons (x y : string) (l : list string) :
  String.concat "," (x :: y :: l) =
  String.append x (String "," (String.concat "," (y :: l))).
Proof. reflexivity. Qed.

Lemma is_ascii_join (l : list string) :
  Forall (fun code => is_ascii (fromString code) = true) l ->
  is_ascii (fromString (String.concat "," l)) = true.
Proof.
  induction 1 as [|x l Hx Hl IH]; [reflexivity|].
  destruct l as [|y l]; [exact Hx|].
  rewrite join_cons, fromString_append, fromString_String, is_ascii_app, Hx.
  simpl. exact IH.
Qed.

Lemma split_nonempty (s : string) : split s <> [].
Proof. destruct s as [|c s]; simpl; [discriminate|]. now destruct (Ascii.eqb c ","). Qed.

Lemma split_no_comma (s : string) : no_comma s = true -> split s = [s].
Proof.
  induction s as [|c s IH]; simpl; [reflexivity|].
  destruct (Ascii.eqb c ","); simpl; [discriminate|].
  intros H. rewrite (IH H). reflexivity.
Qed.

Lemma split_append (x t : string) :
  no_comma x = true -> split (String.append x (String "," t)) = x :: split t.
Proof.
  induction x as [|c x IH]; intros H.
  - reflexivity.
  - rewrite append_String. simpl in H |- *.
    destruct (Ascii.eqb c ","); simpl in H; [discriminate|].
    rewrite (IH H). reflexivity.
Qed.

Lemma split_join (l : list string) :
  l <> [] -> Forall (fun code => no_comma code = true) l ->
  split (String.concat "," l) = l.
Proof.
  intros Hl H. induction H as [|x l Hx H IH]; [contradiction|].
  destruct l as [|y l]; [now apply split_no_comma|].
  rewrite join_cons, (split_append _ _ Hx), IH; [reflexivity|discriminate].
Qed.

Lemma join_split (s : string) : String.concat "," (split s) = s.
Proof.
  induction s as [|c s IH]; [reflexivity|].
  pose proof (split_nonempty s) as Hne. simpl.
  destruct (Ascii.eqb_spec c ",") as [->|_].
  - destruct (split s) as [|p ps]; [contradiction|].
    rewrite join_cons, IH. reflexivity.
  - destruct (split s) as [|p ps]; [contradiction|]. simpl hd. simpl tl.
    destruct ps as [|q ps].
    + simpl in IH |- *. now rewrite IH.
    + rewrite join_cons in IH |- *. rewrite append_String, IH. reflexivity.
Qed.

Lemma length_fromString (s : string) :
  size (fromString s) = Z.of_nat (String.length s).
Proof.
  unfold size. f_equal. induction s as [|c s IH]; [reflexivity|].
  rewrite fromString_String. simpl. now rewrite IH.
Qed.

Lemma join_empty (l : list string) :
  Forall (fun code => no_comma code = true) l ->
  (if 0 <? Z.of_nat (String.length (String.concat "," l))
   then split (String.concat "," l) else []) = read_back l.
Proof.
  intros H. destruct l as [|x l]; [reflexivity|].
  destruct l as [|y l].
  - destruct x as [|c x]; [reflexivity|].
    change (split (String c x) = [String c x]).
    apply split_no_comma. now inversion H.
  - assert (E : (0 <? Z.of_nat (String.length (String.concat "," (x :: y :: l)))) = true).
    { apply Z.ltb_lt. rewrite <- length_fromString, join_cons, fromString_append,
        fromString_String, size_app. pose proof (size_nonneg (fromString x)).
      unfold size at 2. simpl length. lia. }
    rewrite E. rewrite split_join by (discriminate || assumption).
    destruct x; reflexivity.
Qed.

(** ** The layout of the data *)

Lemma size_ercSuffix : ercSuffixSize = 16.
Proof. reflexivity. Qed.

Lemma read_tail (body : Hex) (l s : Byte.byte) (tail : Hex) :
  size tail = 16 ->
  let data := body ++ [l] ++ [s] ++ tail in
  (size data <? ercSuffixSize + 1 + 1) = false /\
  slice data (- ercSuffixSize) None = tail /\
  slice data (- ercSuffixSize - 1) (Some (- ercSuffixSize)) = [s] /\
  codesLength data = Z.of_N (Byte.to_N l).
Proof.
  intros Ht data. pose proof (size_nonneg body).
  repeat split.
  - apply Z.ltb_ge. unfold data. rewrite !size_app, size_ercSuffix, Ht.
    change (size [l]) with 1. change (size [s]) with 1. lia.
  - unfold data. rewrite size_ercSuffix.
    replace (body ++ [l] ++ [s] ++ tail) with ((body ++ [l] ++ [s]) ++ tail)
      by (now rewrite <- !app_assoc).
    apply slice_app_end; lia.
  - unfold data. rewrite size_ercSuffix.
    replace (body ++ [l] ++ [s] ++ tail) with ((body ++ [l]) ++ [s] ++ tail)
      by (now rewrite <- !app_assoc).
    apply slice_app; [lia| |lia]. change (size [s]) with 1. lia.
  - unfold codesLength, data. rewrite size_ercSuffix.
    rewrite slice_app; [apply toNumber_byte| | |].
    + rewrite size_app, Ht. change (size [s]) with 1. lia.
    + rewrite size_app, Ht. change (size [s]) with 1. change (size [l]) with 1. lia.
    + rewrite size_app, Ht. change (size [s]) with 1. lia.
Qed.

Lemma size_trailer (l s : Byte.byte) (tail : Hex) :
  size tail = 16 -> size ([l] ++ [s] ++ tail) = 18.
Proof.
  intros Ht. rewrite !size_app, Ht. reflexivity.
Qed.

Lemma read_codes (pre codes_ : Hex) (l s : Byte.byte) (tail : Hex) :
  size tail = 16 -> Z.of_N (Byte.to_N l) = size codes_ ->
  codesHex (pre ++ codes_ ++ [l] ++ [s] ++ tail) = codes_.
Proof.
  intros Ht Hl. unfold codesHex.
  replace (pre ++ codes_ ++ [l] ++ [s] ++ tail)
    with ((pre ++ codes_) ++ [l] ++ [s] ++ tail) at 2
    by (now rewrite <- !app_assoc).
  destruct (read_tail (pre ++ codes_) l s tail Ht) as (_ & _ & _ & ->).
  pose proof (size_trailer l s tail Ht). pose proof (size_nonneg codes_).
  rewrite size_ercSuffix. apply slice_app; lia.
Qed.

Lemma read_registry (pre registry codes_ : Hex) (l s : Byte.byte) (tail : Hex) :
  size tail = 16 -> Z.of_N (Byte.to_N l) = size codes_ -> size registry = 20 ->
  let data := pre ++ registry ++ codes_ ++ [l] ++ [s] ++ tail in
  slice data (- ercSuffixSize - 2 - codesLength data - 20)
    (Some (- ercSuffixSize - 2 - codesLength data)) = registry.
Proof.
  intros Ht Hl Hr data.
  assert (Hn : codesLength data = Z.of_N (Byte.to_N l)).
  { unfold data.
    replace (pre ++ registry ++ codes_ ++ [l] ++ [s] ++ tail)
      with ((pre ++ registry ++ codes_) ++ [l] ++ [s] ++ tail)
      by (now rewrite <- !app_assoc).
    now destruct (read_tail (pre ++ registry ++ codes_) l s tail Ht) as (_ & _ & _ & ->). }
  rewrite Hn, size_ercSuffix. unfold data.
  pose proof (size_trailer l s tail Ht). pose proof (size_nonneg codes_).
  apply slice_app; rewrite size_app; lia.
Qed.

Lemma fromData_schema0 (pre codes_ : Hex) (l : Byte.byte) :
  Z.of_N (Byte.to_N l) = size codes_ ->
  fromData (pre ++ codes_ ++ [l] ++ [Byte.x00] ++ ercSuffix) =
  Some (mk (if 0 <? Z.of_nat (String.length (toString codes_))
            then split (toString codes_) else [])
           None (Some 0)).
Proof.
  intros Hl.
  pose proof (read_codes pre codes_ l Byte.x00 ercSuffix eq_refl Hl) as H5.
  revert H5.
  replace (pre ++ codes_ ++ [l] ++ [Byte.x00] ++ ercSuffix)
    with ((pre ++ codes_) ++ [l] ++ [Byte.x00] ++ ercSuffix)
    by (now rewrite <- !app_assoc).
  destruct (read_tail (pre ++ codes_) l Byte.x00 ercSuffix eq_refl) as (H1 & H2 & H3 & _).
  set (data := (pre ++ codes_) ++ [l] ++ [Byte.x00] ++ ercSuffix) in *.
  intros H5. unfold fromData. rewrite H1, H2, H3.
  rewrite bool_decide_eq_true_2 by reflexivity. simpl negb. cbv iota.
  change (toNumber [Byte.x00] =? 0) with true. cbv iota.
  fold (codesLength data). fold (codesHex data).
  rewrite H5. reflexivity.
Qed.

Lemma fromData_schema1 (pre registry codes_ : Hex) (l : Byte.byte) :
  Z.of_N (Byte.to_N l) = size codes_ -> size registry = 20 ->
  fromData (pre ++ registry ++ codes_ ++ [l] ++ [Byte.x01] ++ ercSuffix) =
  Some (mk (if 0 <? Z.of_nat (String.length (toString codes_))
            then split (toString codes_) else [])
           (Some (Some registry)) (Some 1)).
Proof.
  intros Hl Hr.
  pose proof (read_registry pre registry codes_ l Byte.x01 ercSuffix eq_refl Hl Hr) as Ha.
  pose proof (read_codes (pre ++ registry) codes_ l Byte.x01 ercSuffix eq_refl Hl) as H5.
  rewrite <- app_assoc in H5. revert Ha H5. cbv zeta.
  replace (pre ++ registry ++ codes_ ++ [l] ++ [Byte.x01] ++ ercSuffix)
    with ((pre ++ registry ++ codes_) ++ [l] ++ [Byte.x01] ++ ercSuffix)
    by (now rewrite <- !app_assoc).
  destruct (read_tail (pre ++ registry ++ codes_) l Byte.x01 ercSuffix eq_refl)
    as (H1 & H2 & H3 & _).
  set (data := (pre ++ registry ++ codes_) ++ [l] ++ [Byte.x01] ++ ercSuffix) in *.
  intros Ha H5. unfold fromData. rewrite H1, H2, H3.
  rewrite bool_decide_eq_true_2 by reflexivity. simpl negb. cbv iota.
  change (toNumber [Byte.x01] =? 0) with false. cbv iota.
  change (toNumber [Byte.x01] =? 1) with true. cbv iota.
  fold (codesLength data). fold (codesHex data).
  rewrite H5, Ha. reflexivity.
Qed.

Lemma cut (data : Hex) (k : Z) :
  0 <= k <= size data -> exists a b, data = a ++ b /\ size b = k.
Proof.
  intros Hk. exists (take (Z.to_nat (size data - k)) data),
    (drop (Z.to_nat (size data - k)) data).
  split; [now rewrite take_drop|].
  unfold size in *. rewrite length_drop. lia.
Qed.

Lemma cut_byte (data : Hex) : size data = 1 -> exists b, data = [b].
Proof.
  destruct data as [|b [|c data]]; unfold size; simpl; try lia. now exists b.
Qed.

Lemma cut_trailer (data : Hex) :
  18 <= size data ->
  exists body l s tail, data = body ++ [l] ++ [s] ++ tail /\ size tail = 16.
Proof.
  intros Hn.
  destruct (cut data 16) as (d1 & tail & -> & Ht); [lia|].
  rewrite size_app in Hn.
  destruct (cut d1 1) as (d2 & sb & -> & Hs); [lia|].
  rewrite size_app in Hn.
  destruct (cut d2 1) as (body & lb & -> & Hl); [lia|].
  destruct (cut_byte _ Hs) as (s & ->). destruct (cut_byte _ Hl) as (l & ->).
  exists body, l, s, tail. split; [|exact Ht]. now rewrite <- !app_assoc.
Qed.

Lemma join_read (t : string) :
  String.concat "," (if 0 <? Z.of_nat (String.length t) then split t else []) = t.
Proof.
  destruct t as [|c t]; [reflexivity|].
  change (String.concat "," (split (String c t)) = String c t). apply join_split.
Qed.

(** ** Encoding and decoding *)

(** X18. The suffix made of an attribution, appended to any calldata, is
    read back as that attribution with its schema id: the codes, when they
    are ASCII text without commas, and the registry address, when it has
    20 bytes.  The one exception is the single empty code, read back as no
    code. *)
Theorem suffix_round_trip (attribution : Attribution) (calldata suffix : Hex) :
  toDataSuffix attribution = inr suffix ->
  Forall (fun code => is_ascii (fromString code) = true /\ no_comma code = true)
    (codes attribution) ->
  (forall registry, codeRegistryAddress attribution = Some (Some registry) ->
                    size registry = 20) ->
  fromData (concat [calldata; suffix]) =
  Some (mk (read_back (codes attribution)) (codeRegistryAddress attribution)
           (Some (getSchemaId attribution))).
Proof.
  intros H Hcodes Hreg.
  assert (Hascii : Forall (fun code => is_ascii (fromString code) = true) (codes attribution))
    by (eapply Forall_impl; [exact Hcodes|]; now intros ? [? _]).
  assert (Hcomma : Forall (fun code => no_comma code = true) (codes attribution))
    by (eapply Forall_impl; [exact Hcodes|]; now intros ? [_ ?]).
  set (joined := String.concat "," (codes attribution)) in *.
  assert (Ht : toString (fromString joined) = joined).
  { rewrite toString_ascii by now apply is_ascii_join.
    apply string_of_list_byte_of_string. }
  unfold toDataSuffix in H. fold joined in H.
  destruct (fromNumber (size (fromString joined))) as [h|] eqn:E; [|discriminate].
  destruct (fromNumber_Some _ _ E) as (l & -> & Hl).
  unfold getSchemaId in *.
  destruct (codeRegistryAddress attribution) as [[registry|]|] eqn:Er.
  - change (fromNumber 1) with (Some [Byte.x01]) in H.
    change (1 =? 1) with true in H. cbv iota in H.
    rewrite concat5 in H. apply (inj inr) in H. subst suffix. rewrite concat2.
    rewrite fromData_schema1 by auto.
    rewrite Ht. unfold joined. now rewrite join_empty.
  - change (fromNumber 1) with (Some [Byte.x01]) in H.
    change (1 =? 1) with true in H. cbv iota in H. discriminate H.
  - change (fromNumber 0) with (Some [Byte.x00]) in H.
    change (0 =? 1) with false in H. cbv iota in H.
    rewrite concat4 in H. apply (inj inr) in H. subst suffix. rewrite concat2.
    rewrite fromData_schema0 by assumption.
    rewrite Ht. unfold joined. now rewrite join_empty.
Qed.

(** X19. An attribution found in data that holds all the bytes it declares,
    with codes in ASCII, is encoded again as the very end of that data. *)
Theorem data_reencoded (data : Hex) (attribution : Attribution) :
  fromData data = Some attribution ->
  codesLength data + registrySize attribution + ercSuffixSize + 2 <= size data ->
  is_ascii (codesHex data) = true ->
  exists calldata suffix,
    toDataSuffix attribution = inr suffix /\ data = concat [calldata; suffix].
Proof.
  intros H Hfit Hascii. pose proof H as Hbranch. unfold fromData in Hbranch.
  destruct (Z.ltb_spec (size data) (ercSuffixSize + 1 + 1)) as [|Hn]; [discriminate|].
  rewrite size_ercSuffix in Hn, Hfit.
  destruct (cut_trailer data) as (body & l & s & tail & -> & Ht); [lia|].
  destruct (read_tail body l s tail Ht) as (_ & H2 & H3 & H4).
  rewrite H2, H3, toNumber_byte in Hbranch. rewrite H4 in Hfit.
  destruct (bool_decide_reflect (tail = ercSuffix)) as [->|]; [|discriminate].
  simpl negb in Hbranch. cbv iota in Hbranch.
  rewrite !size_app in Hfit. change (size [l]) with 1 in Hfit.
  change (size [s]) with 1 in Hfit. change (size ercSuffix) with 16 in Hfit.
  assert (Hback : forall codes_,
             is_ascii codes_ = true ->
             fromString (String.concat ","
               (if 0 <? Z.of_nat (String.length (toString codes_))
                then split (toString codes_) else [])) = codes_).
  { intros codes_ Hc. rewrite join_read, toString_ascii by exact Hc.
    apply list_byte_of_string_of_list_byte. }
  destruct (Z.eqb_spec (Z.of_N (Byte.to_N s)) 0) as [Hs|Hs0].
  - assert (s = Byte.x00) as -> by (now apply (byte_of_number s 0)).
    assert (registrySize attribution = 0) as Hr
      by (injection Hbranch as <-; reflexivity).
    rewrite Hr in Hfit.
    destruct (cut body (Z.of_N (Byte.to_N l))) as (pre & codes_ & -> & Hl); [lia|].
    rewrite <- app_assoc in H, Hascii. symmetry in Hl.
    rewrite read_codes in Hascii by (reflexivity || assumption).
    rewrite fromData_schema0 in H by assumption. injection H as <-.
    exists pre, (codes_ ++ [l] ++ [Byte.x00] ++ ercSuffix). split.
    + unfold toDataSuffix, getSchemaId. cbn [codes codeRegistryAddress].
      rewrite (Hback _ Hascii), <- Hl, fromNumber_byte.
      change (fromNumber 0) with (Some [Byte.x00]).
      change (0 =? 1) with false. cbv iota. now rewrite concat4.
    + now rewrite concat2, <- !app_assoc.
  - destruct (Z.eqb_spec (Z.of_N (Byte.to_N s)) 1) as [Hs|]; [|discriminate].
    assert (s = Byte.x01) as -> by (now apply (byte_of_number s 1)).
    assert (registrySize attribution = 20) as Hr
      by (injection Hbranch as <-; reflexivity).
    rewrite Hr in Hfit.
    destruct (cut body (Z.of_N (Byte.to_N l))) as (front & codes_ & -> & Hl); [lia|].
    rewrite size_app in Hfit. pose proof (size_nonneg codes_).
    destruct (cut front 20) as (pre & registry & -> & Hreg); [lia|].
    rewrite <- !app_assoc in H, Hascii. symmetry in Hl.
    assert (Hc : is_ascii codes_ = true).
    { rewrite <- Hascii. f_equal. symmetry.
      replace (pre ++ registry ++ codes_ ++ [l] ++ [Byte.x01] ++ ercSuffix)
        with ((pre ++ registry) ++ codes_ ++ [l] ++ [Byte.x01] ++ ercSuffix)
        by (now rewrite <- !app_assoc).
      now apply read_codes. }
    rewrite fromData_schema1 in H by assumption. injection H as <-.
    exists pre, (registry ++ codes_ ++ [l] ++ [Byte.x01] ++ ercSuffix). split.
    + unfold toDataSuffix, getSchemaId. cbn [codes codeRegistryAddress].
      rewrite (Hback _ Hc), <- Hl, fromNumber_byte.
      change (fromNumber 1) with (Some [Byte.x01]).
      change (1 =? 1) with true. cbv iota. now rewrite concat5.
    + now rewrite concat2, <- !app_assoc.
Qed.

(** X20. When [toDataSuffix] throws.  It throws the range error of
    [Hex.fromNumber] exactly when the codes, joined by commas, take more
    than 255 bytes, and a [TypeError] exactly when they do not and the
    attribution has the key [codeRegistryAddress] with the value
    [undefined]; in every other case it returns a suffix.  The suffix is the
    registry address, the joined codes, 2 bytes and the ERC suffix long. *)
Theorem toDataSuffix_limit (attribution : Attribution) :
  let joined := fromString (String.concat "," (codes attribution)) in
  (toDataSuffix attribution = inl IntegerOutOfRangeError <-> 255 < size joined) /\
  (toDataSuffix attribution = inl TypeError <->
   size joined <= 255 /\ codeRegistryAddress attribution = Some None) /\
  ((exists suffix, toDataSuffix attribution = inr suffix) <->
   size joined <= 255 /\ codeRegistryAddress attribution <> Some None) /\
  (forall suffix,
     toDataSuffix attribution = inr suffix ->
     size suffix =
       match codeRegistryAddress attribution with
       | Some (Some registry) => size registry
       | _ => 0
       end + size joined + 2 + ercSuffixSize).
Proof.
  intros joined. pose proof (size_nonneg joined) as Hj.
  unfold toDataSuffix, getSchemaId. fold joined.
  destruct (fromNumber (size joined)) as [h|] eqn:E.
  - destruct (fromNumber_Some _ _ E) as (l & -> & Hl).
    pose proof (Byte.to_N_bounded l).
    destruct (codeRegistryAddress attribution) as [[registry|]|].
    + change (fromNumber 1) with (Some [Byte.x01]).
      change (1 =? 1) with true. cbv iota.
      split; [split; [discriminate|lia]|].
      split; [split; [discriminate|intros [_ Hu]; discriminate Hu]|].
      split; [split; [intros _; split; [lia|discriminate]|intros _; eauto]|].
      intros suffix Hs. apply (inj inr) in Hs. subst suffix.
      rewrite concat5, !size_app, size_ercSuffix.
      change (size ercSuffix) with 16. change (size [l]) with 1.
      change (size [Byte.x01]) with 1. lia.
    + change (fromNumber 1) with (Some [Byte.x01]).
      change (1 =? 1) with true. cbv iota.
      split; [split; [discriminate|lia]|].
      split; [split; [intros _; split; [lia|reflexivity]|reflexivity]|].
      split; [split; [intros [suffix Hs]; discriminate Hs|intros [_ Hu]; now destruct Hu]|].
      intros suffix Hs. discriminate Hs.
    + change (fromNumber 0) with (Some [Byte.x00]).
      change (0 =? 1) with false. cbv iota.
      split; [split; [discriminate|lia]|].
      split; [split; [discriminate|intros [_ Hu]; discriminate Hu]|].
      split; [split; [intros _; split; [lia|discriminate]|intros _; eauto]|].
      intros suffix Hs. apply (inj inr) in Hs. subst suffix.
      rewrite concat4, !size_app, size_ercSuffix.
      change (size ercSuffix) with 16. change (size [l]) with 1.
      change (size [Byte.x00]) with 1. lia.
  - apply fromNumber_None in E.
    split; [split; [lia|reflexivity]|].
    split; [split; [discriminate|lia]|].
    split; [split; [intros [suffix Hs]; discriminate Hs|lia]|].
    intros suffix Hs. discriminate Hs.
Qed.

End FromData.

(** ** The theorems on the examples *)

Lemma suffix_round_trip_witness :
  toDataSuffix sample_custom = inr sample_custom_suffix /\
  fromData string_of_list_byte (concat [sample_calldata; sample_custom_suffix]) =
  Some (mk ["baseapp"%string; "morpho"%string] (Some (Some sample_registry)) (Some 1)).
Proof.
  assert (H : toDataSuffix sample_custom = inr sample_custom_suffix) by reflexivity.
  split; [exact H|].
  apply (suffix_round_trip string_of_list_byte (fun _ _ => eq_refl)
           sample_custom sample_calldata _ H).
  - repeat constructor.
  - intros registry [= <-]. reflexivity.
Defined.

Lemma data_reencoded_witness :
  fromData string_of_list_byte sample_data =
    Some (mk ["baseapp"%string] None (Some 0)) /\
  exists calldata suffix,
    toDataSuffix (mk ["baseapp"%string] None (Some 0)) = inr suffix /\
    sample_data = concat [calldata; suffix].
Proof.
  assert (H : fromData string_of_list_byte sample_data =
              Some (mk ["baseapp"%string] None (Some 0))) by reflexivity.
  split; [exact H|].
  apply (data_reencoded string_of_list_byte (fun _ _ => eq_refl) sample_data _ H).
  - apply Z.leb_le. reflexivity.
  - reflexivity.
Defined.

(** The two examples of schema 0 as the source gives them. *)
Example toDataSuffix_documented :
  toDataSuffix sample_attribution = inr sample_suffix.
Proof. reflexivity. Qed.

Example fromData_documented :
  fromData string_of_list_byte sample_data = Some (mk ["baseapp"%string] None (Some 0)).
Proof. reflexivity. Qed.

(** Codes with a comma are read back as more codes, and data that declares
    more bytes than it holds is read as far as it goes. *)
Example comma_splits :
  exists suffix,
    toDataSuffix (mk ["a,b"%string] None None) = inr suffix /\
    fromData string_of_list_byte suffix =
    Some (mk ["a"%string; "b"%string] None (Some 0)).
Proof. eexists. split; reflexivity. Qed.

(** The key of the address with the value [undefined]: schema 1, and a
    [TypeError] where the address is read. *)
Example undefined_registry :
  getSchemaId sample_undefined = 1 /\ toDataSuffix sample_undefined = inl TypeError.
Proof. split; reflexivity. Qed.

Example short_data_read :
  fromData string_of_list_byte ([Byte.x61; Byte.x62; Byte.x05; Byte.x00] ++ ercSuffix) =
  Some (mk ["ab"%string] None (Some 0)).
Proof. reflexivity. Qed.

(** In the data of the example of schema 1 the byte before the schema id is
    one of the address, so that no address is found there. *)
Example misplaced_registry (toString : Hex -> string) :
  option_map codeRegistryAddress (fromData toString sample_misplaced) =
  Some (Some (Some [])).
Proof. reflexivity. Qed.

End Attribution.
